(** * signalproject: the EEG signal-processing core, embedded in Rocq

    The TypeScript sources compute on JavaScript numbers, which are IEEE 754
    binary64 values.  The embedding keeps them as such: a [number] is a
    primitive [float], [+ - * /] and [Math.sqrt] are the kernel's correctly
    rounded operations, and comparisons are the IEEE ones (false on NaN).
    Arrays are lists; an out-of-range read gives [undefined], which every
    numeric context of this code turns into NaN. *)

From Stdlib Require Import Floats ZArith List Bool Lia Sorted.
From Stdlib Require String.
Import String.StringSyntax.
Local Open Scope string_scope.
Import ListNotations.

Set Warnings "-inexact-float".
Local Open Scope float_scope.

(** ** JavaScript numbers and the [Math] object *)

Module JS.

Definition number := float.

(** An integer-valued loop counter or array length, read as a number. *)
Definition of_nat (n : nat) : number :=
  PrimFloat.of_uint63 (Uint63.of_Z (Z.of_nat n)).

(** [a[i]] in a numeric context: [undefined] behaves as NaN. *)
Definition get (a : list number) (i : nat) : number := nth i a nan.

(** [x > y] and [x >= y]. *)
Definition gt (x y : number) : bool := y <? x.
Definition ge (x y : number) : bool := y <=? x.

(** [x || 0] on a number: NaN, +0 and -0 are falsy. *)
Definition or_zero (x : number) : number :=
  if is_nan x || is_zero x then 0 else x.

(** [a[i] || 0]: [undefined] is falsy too. *)
Definition get_or_zero (a : list number) (i : nat) : number :=
  match nth_error a i with
  | Some x => or_zero x
  | None => 0
  end.

(** [x || 1]. *)
Definition or_one (x : number) : number :=
  if is_nan x || is_zero x then 1 else x.

Definition Math_PI : number := 0x1.921fb54442d18p+1.

Definition Math_abs (x : number) : number := abs x.
Definition Math_sqrt (x : number) : number := sqrt x.

(** [Math.pow(x, 2)].  ECMAScript leaves [Math.pow] implementation-
    approximated; for the exponent 2 the engines return the square rounded
    once, which is the product [x * x].  Other exponents go through
    [MathImpl] below. *)
Definition Math_pow_2 (x : number) : number := x * x.

(** [Math.max(x, y)] and [Math.min(x, y)]: NaN if either is NaN, and +0
    counts as larger than -0. *)
Definition Math_max (x y : number) : number :=
  if is_nan x || is_nan y then nan
  else if x <? y then y
  else if y <? x then x
  else if get_sign x then y else x.

Definition Math_min (x y : number) : number :=
  if is_nan x || is_nan y then nan
  else if x <? y then x
  else if y <? x then y
  else if get_sign x then x else y.

(** [Math.max(...xs)]: -Infinity on the empty list. *)
Definition Math_max_list (xs : list number) : number :=
  fold_left Math_max xs neg_infinity.

(** [Math.floor(x)], kept as the mathematical integer it denotes (the
    sources only use it as a loop bound, where -0 acts as 0).  A finite
    binary64 value is [±m·2^e]; shifting by a negative [e] is division
    rounding down. *)
Inductive floored : Type :=
| FlInt (z : Z)
| FlNaN
| FlPosInf
| FlNegInf.

Definition Math_floor (x : number) : floored :=
  match Prim2SF x with
  | S754_zero _ => FlInt 0
  | S754_nan => FlNaN
  | S754_infinity false => FlPosInf
  | S754_infinity true => FlNegInf
  | S754_finite s m e => FlInt (Z.shiftl (if s then Z.neg m else Z.pos m) e)
  end.

(** The longest array: [push] and [new Array(n)] throw a RangeError once
    the length would pass 2^32 - 1. *)
Definition max_array_length : Z := (2 ^ 32 - 1)%Z.

(** Number of passes of [for (let i = 0; i < bound; i++) a.push(...)] on an
    array that starts empty.  Each pass pushes one element, so the loop
    only finishes for a bound of at most [max_array_length]: above it, and on
    an infinite bound, the push that would make the length 2^32 throws and
    there is no count. *)
Definition for_count (bound : floored) : option nat :=
  match bound with
  | FlInt z => if (z <=? max_array_length)%Z then Some (Z.to_nat z) else None
  | FlPosInf => None
  | FlNaN | FlNegInf => Some O
  end.

(** [for (let i = 0; i < n; i++) state = body(state, i)]. *)
Definition for_loop {S : Type} (n : nat) (body : S -> nat -> S) (init : S) : S :=
  fold_left body (seq 0 n) init.

(** [xs.reduce((a, b) => a + b, 0)]. *)
Definition sum (xs : list number) : number := fold_left add xs 0.

End JS.

Import JS.

(** ** [Math.sin], [Math.cos], [Math.tan], [Math.exp], [Math.tanh],
    [Math.pow]

    ECMAScript fixes these functions at NaN, the zeros and the infinities and
    leaves every other value implementation-approximated.  The embedding
    takes the approximations as a parameter [MathImpl] and writes out the
    fixed cases. *)

Class MathImpl : Type := mkMathImpl {
  sin_approx : number -> number;
  cos_approx : number -> number;
  tan_approx : number -> number;
  exp_approx : number -> number;
  tanh_approx : number -> number;
  pow_approx : number -> number -> number
}.

Definition Math_sin {M : MathImpl} (x : number) : number :=
  if is_nan x || is_infinity x then nan
  else if is_zero x then x
  else sin_approx x.

Definition Math_cos {M : MathImpl} (x : number) : number :=
  if is_nan x || is_infinity x then nan
  else if is_zero x then 1
  else cos_approx x.

Definition Math_tan {M : MathImpl} (x : number) : number :=
  if is_nan x || is_infinity x then nan
  else if is_zero x then x
  else tan_approx x.

Definition Math_exp {M : MathImpl} (x : number) : number :=
  if is_nan x then nan
  else if x =? infinity then infinity
  else if x =? neg_infinity then 0
  else if is_zero x then 1
  else exp_approx x.

Definition Math_tanh {M : MathImpl} (x : number) : number :=
  if is_nan x then nan
  else if is_zero x then x
  else if x =? infinity then 1
  else if x =? neg_infinity then -1
  else tanh_approx x.

(** [Math.pow(x, 4)], the other exponent the sources use: NaN stays NaN,
    an infinity gives +Infinity and a zero +0 (4 is even and positive); the
    rest is the implementation's. *)
Definition Math_pow_4 {M : MathImpl} (x : number) : number :=
  if is_nan x then nan
  else if is_infinity x then infinity
  else if is_zero x then 0
  else pow_approx x 4.

(** [Math.random()]: the successive draws of one call of a function are the
    values of a stream, so that a run can be replayed. *)
Definition random_source := nat -> number.

(** *** One implementation, to run the code on concrete inputs

    Argument reduction to a quadrant (or to a power of two) followed by a
    Taylor polynomial in Horner form.  The theorems below quantify over every
    [MathImpl]; this one serves the worked examples. *)

Module Series.

Definition of_Z (z : Z) : number :=
  if (z <? 0)%Z then - PrimFloat.of_uint63 (Uint63.of_Z (- z))
  else PrimFloat.of_uint63 (Uint63.of_Z z).

Definition nearest (x : number) : Z :=
  match Math_floor (x + 0.5) with
  | FlInt z => z
  | _ => 0%Z
  end.

Definition horner (coeffs : list number) (y : number) : number :=
  fold_right (fun c acc => c + y * acc) 0 coeffs.

Definition inv_fact (k : nat) : number :=
  1 / fold_left (fun acc i => acc * of_nat i) (seq 1 k) 1.

Definition sin_coeffs : list number :=
  map (fun k => (if Nat.even k then 1 else -1) * inv_fact (2 * k + 1)) (seq 0 10).

Definition cos_coeffs : list number :=
  map (fun k => (if Nat.even k then 1 else -1) * inv_fact (2 * k)) (seq 0 10).

Definition exp_coeffs : list number := map inv_fact (seq 0 18).

Definition sin_kernel (r : number) : number := r * horner sin_coeffs (r * r).
Definition cos_kernel (r : number) : number := horner cos_coeffs (r * r).

Definition half_pi : number := Math_PI / 2.
Definition ln2 : number := 0x1.62e42fefa39efp-1.

Definition sin (x : number) : number :=
  let k := nearest (x / half_pi) in
  let r := x - of_Z k * half_pi in
  match (k mod 4)%Z with
  | 0%Z => sin_kernel r
  | 1%Z => cos_kernel r
  | 2%Z => - sin_kernel r
  | _ => - cos_kernel r
  end.

Definition cos (x : number) : number :=
  let k := nearest (x / half_pi) in
  let r := x - of_Z k * half_pi in
  match (k mod 4)%Z with
  | 0%Z => cos_kernel r
  | 1%Z => - sin_kernel r
  | 2%Z => - cos_kernel r
  | _ => sin_kernel r
  end.

Definition tan (x : number) : number := sin x / cos x.

Definition exp (x : number) : number :=
  let k := nearest (x / ln2) in
  let r := x - of_Z k * ln2 in
  Z.ldexp (horner exp_coeffs r) k.

Definition tanh (x : number) : number :=
  if 20 <? x then 1
  else if x <? -20 then -1
  else let e := exp (2 * x) in (e - 1) / (e + 1).

(** Powers with a whole exponent, by repeated product (the reciprocal for a
    negative one); the sources raise to whole exponents only, and any other
    exponent gives NaN here. *)
Definition pow (x y : number) : number :=
  match Math_floor y with
  | FlInt z =>
      if of_Z z =? y then
        if (0 <=? z)%Z then Z.iter z (fun acc => acc * x) 1
        else 1 / Z.iter (- z) (fun acc => acc * x) 1
      else nan
  | _ => nan
  end.

Definition math : MathImpl := mkMathImpl sin cos tan exp tanh pow.

End Series.

(** ** signal-generator.ts *)

Inductive EmotionType : Type := happy | neutral | sad.

Record BrainSignal : Type := mkBrainSignal {
  data : list number;
  sampleRate : number;
  duration : number;
  emotion : EmotionType;
  label : String.string
}.

(** A call that throws, or never returns, has no result. *)
Definition bind {A B : Type} (x : option A) (f : A -> option B) : option B :=
  match x with
  | Some a => f a
  | None => None
  end.

Notation "x <- e ;; k" := (bind e (fun x => k))
  (at level 61, e at next level, right associativity).
Notation "' p <- e ;; k" := (bind e (fun x => let p := x in k))
  (at level 61, p pattern, e at next level, right associativity).

(** [xs.map((v, i) => f(v, i))]. *)
Definition mapi {A B : Type} (f : A -> nat -> B) (xs : list A) : list B :=
  map (fun p => f (snd p) (fst p)) (combine (seq 0 (length xs)) xs).

Section Generator.

Context {M : MathImpl}.

Definition generateSineWave (frequency amplitude duration sampleRate phase : number)
    : option (list number) :=
  samples <- for_count (Math_floor (duration * sampleRate)) ;;
  Some (map (fun i =>
               let t := of_nat i / sampleRate in
               amplitude * Math_sin (2 * Math_PI * frequency * t + phase))
            (seq 0 samples)).

Definition generateNoise (rnd : random_source) (length : nat) (amplitude : number)
    : list number :=
  map (fun i => (rnd i - 0.5) * 2 * amplitude) (seq 0 length).

Definition generatePowerLineNoise (duration sampleRate frequency amplitude : number)
    : option (list number) :=
  generateSineWave frequency amplitude duration sampleRate 0.

(** [result[i] += signal[i]] for every index of [signal]; a write past the
    end of [result] would extend it with [undefined + signal[i]]. *)
Fixpoint add_into (result signal : list number) : list number :=
  match result, signal with
  | r :: rs, s :: ss => (r + s) :: add_into rs ss
  | _, [] => result
  | [], _ :: _ => map (fun _ => nan) signal
  end.

(** [addSignals(...signals)], called with two or three signals. *)
Definition addSignals (signals : list (list number)) : list number :=
  let maxLength := fold_left Nat.max (map (@length number) signals) O in
  fold_left add_into signals (repeat 0 maxLength).

Definition generateAlphaWaves (duration sampleRate : number) : option (list number) :=
  alpha1 <- generateSineWave 10 0.8 duration sampleRate 0 ;;
  alpha2 <- generateSineWave 11 0.4 duration sampleRate (Math_PI / 4) ;;
  Some (addSignals [alpha1; alpha2]).

Definition generateBetaWaves (duration sampleRate : number) : option (list number) :=
  beta1 <- generateSineWave 18 0.5 duration sampleRate 0 ;;
  beta2 <- generateSineWave 22 0.3 duration sampleRate (Math_PI / 3) ;;
  beta3 <- generateSineWave 26 0.2 duration sampleRate (Math_PI / 6) ;;
  Some (addSignals [beta1; beta2; beta3]).

Definition generateThetaWaves (duration sampleRate : number) : option (list number) :=
  theta1 <- generateSineWave 5 0.6 duration sampleRate 0 ;;
  theta2 <- generateSineWave 7 0.4 duration sampleRate (Math_PI / 5) ;;
  Some (addSignals [theta1; theta2]).

Definition generateDeltaWaves (duration sampleRate : number) : option (list number) :=
  delta1 <- generateSineWave 1 1.0 duration sampleRate 0 ;;
  delta2 <- generateSineWave 2.5 0.5 duration sampleRate (Math_PI / 4) ;;
  Some (addSignals [delta1; delta2]).

Definition generateGammaWaves (duration sampleRate : number) : option (list number) :=
  gamma1 <- generateSineWave 40 0.2 duration sampleRate 0 ;;
  gamma2 <- generateSineWave 50 0.1 duration sampleRate (Math_PI / 2) ;;
  Some (addSignals [gamma1; gamma2]).

Definition generateHappySignal (rnd : random_source) (duration sampleRate : number)
    : option BrainSignal :=
  alpha <- generateAlphaWaves duration sampleRate ;;
  beta <- generateBetaWaves duration sampleRate ;;
  gamma <- generateGammaWaves duration sampleRate ;;
  let noise := generateNoise rnd (length alpha) 0.2 in
  powerNoise <- generatePowerLineNoise duration sampleRate 50 0.25 ;;
  let signal := mapi (fun v i =>
      v * 1.2 + get_or_zero beta i * 0.6 + get_or_zero gamma i * 0.3
      + get noise i + get_or_zero powerNoise i) alpha in
  Some (mkBrainSignal signal sampleRate duration happy "😊 Happy Brain Signal").

Definition generateNeutralSignal (rnd : random_source) (duration sampleRate : number)
    : option BrainSignal :=
  alpha <- generateAlphaWaves duration sampleRate ;;
  beta <- generateBetaWaves duration sampleRate ;;
  theta <- generateThetaWaves duration sampleRate ;;
  let noise := generateNoise rnd (length alpha) 0.15 in
  powerNoise <- generatePowerLineNoise duration sampleRate 50 0.2 ;;
  let signal := mapi (fun v i =>
      v * 0.8 + get_or_zero beta i * 0.5 + get_or_zero theta i * 0.3
      + get noise i + get_or_zero powerNoise i) alpha in
  Some (mkBrainSignal signal sampleRate duration neutral "😐 Neutral Brain Signal").

Definition generateSadSignal (rnd : random_source) (duration sampleRate : number)
    : option BrainSignal :=
  alpha <- generateAlphaWaves duration sampleRate ;;
  theta <- generateThetaWaves duration sampleRate ;;
  delta <- generateDeltaWaves duration sampleRate ;;
  let noise := generateNoise rnd (length alpha) 0.2 in
  powerNoise <- generatePowerLineNoise duration sampleRate 50 0.3 ;;
  let signal := mapi (fun v i =>
      v * 0.4 + get_or_zero theta i * 1.2 + get_or_zero delta i * 0.8
      + get noise i + get_or_zero powerNoise i) alpha in
  Some (mkBrainSignal signal sampleRate duration sad "😢 Sad Brain Signal").

(** [powerNoiseFreq: 50 | 60]. *)
Inductive PowerNoiseFreq : Type := Hz50 | Hz60.

Definition powerNoiseFreq_number (f : PowerNoiseFreq) : number :=
  match f with
  | Hz50 => 50
  | Hz60 => 60
  end.

Record CustomSignalParams : Type := mkCustomSignalParams {
  p_alpha : number;
  p_beta : number;
  p_theta : number;
  p_delta : number;
  p_gamma : number;
  noiseLevel : number;
  powerNoiseFreq : PowerNoiseFreq;
  powerNoiseLevel : number
}.

(** The emotion [generateCustomSignal] derives from the weights. *)
Definition customEmotion (params : CustomSignalParams) : EmotionType :=
  if gt (p_alpha params) 0.8 && gt (p_gamma params) 0.2 then happy
  else if gt (p_theta params) 0.8 || gt (p_delta params) 0.6 then sad
  else neutral.

Definition generateCustomSignal (rnd : random_source) (params : CustomSignalParams)
    (duration sampleRate : number) : option BrainSignal :=
  alpha <- generateAlphaWaves duration sampleRate ;;
  beta <- generateBetaWaves duration sampleRate ;;
  theta <- generateThetaWaves duration sampleRate ;;
  delta <- generateDeltaWaves duration sampleRate ;;
  gamma <- generateGammaWaves duration sampleRate ;;
  let noise := generateNoise rnd (length alpha) (noiseLevel params) in
  powerNoise <- generatePowerLineNoise duration sampleRate
                  (powerNoiseFreq_number (powerNoiseFreq params))
                  (powerNoiseLevel params) ;;
  let signal := mapi (fun v i =>
      v * p_alpha params
      + get_or_zero beta i * p_beta params
      + get_or_zero theta i * p_theta params
      + get_or_zero delta i * p_delta params
      + get_or_zero gamma i * p_gamma params
      + get noise i
      + get_or_zero powerNoise i) alpha in
  let emotion := customEmotion params in
  Some (mkBrainSignal signal sampleRate duration emotion "🎛️ Custom Signal").

End Generator.

(** ** signal-processing.ts *)

(** [a[i] = v]: a write past the end extends the array, the holes reading
    as [undefined]. *)
Fixpoint array_set (a : list number) (i : nat) (v : number) : list number :=
  match i, a with
  | O, [] => [v]
  | O, _ :: t => v :: t
  | S i', [] => nan :: array_set [] i' v
  | S i', x :: t => x :: array_set t i' v
  end.

Record Coeffs : Type := mkCoeffs {
  coeff_b : list number;
  coeff_a : list number
}.

(** The feed-forward sum of [applyIIRFilter] at index [i]:
    [if (i - j >= 0) sum += b[j] * signal[i - j]] for [j] from 0. *)
Definition feed_forward (signal b : list number) (i : nat) : number :=
  for_loop (length b)
    (fun sum j => if (j <=? i)%nat then sum + get b j * get signal (i - j) else sum) 0.

(** The feedback part, from [j = 1]:
    [if (i - j >= 0) sum -= a[j] * output[i - j]]. *)
Definition feed_back (output a : list number) (i : nat) (sum0 : number) : number :=
  fold_left
    (fun sum j => if (j <=? i)%nat then sum - get a j * get output (i - j) else sum)
    (seq 1 (length a - 1)) sum0.

Definition applyIIRFilter (signal b a : list number) : list number :=
  for_loop (length signal)
    (fun output i => array_set output i (feed_back output a i (feed_forward signal b i)))
    (repeat 0 (length signal)).

Definition filtfilt (signal b a : list number) : list number :=
  let filtered := applyIIRFilter signal b a in
  let filtered := rev filtered in
  let filtered := applyIIRFilter filtered b a in
  rev filtered.

Record SignalStats : Type := mkSignalStats {
  stat_mean : number;
  stat_std : number;
  stat_min : number;
  stat_max : number;
  stat_rms : number
}.

Definition calculateSignalStats (signal : list number) : SignalStats :=
  let n := length signal in
  if (n =? 0)%nat then mkSignalStats 0 0 0 0 0
  else
    let mean := sum signal / of_nat n in
    let variance :=
      fold_left (fun sum v => sum + Math_pow_2 (v - mean)) signal 0 / of_nat n in
    let std := Math_sqrt variance in
    let min := fold_left Math_min signal infinity in
    let max := Math_max_list signal in
    let rms := Math_sqrt (fold_left (fun sum v => sum + v * v) signal 0 / of_nat n) in
    mkSignalStats mean std min max rms.

Record BandPowers : Type := mkBandPowers {
  delta : number;
  theta : number;
  alpha : number;
  beta : number;
  gamma : number
}.

(** The sums and bin counts [calculateBandPowers] accumulates.  A count is
    an integer below the array length, kept as a [nat] and read as a number
    where the source divides by it. *)
Record band_acc : Type := mkBandAcc {
  acc_delta : number; acc_theta : number; acc_alpha : number;
  acc_beta : number; acc_gamma : number;
  deltaCount : nat; thetaCount : nat; alphaCount : nat;
  betaCount : nat; gammaCount : nat
}.

(** One pass of its loop, on the bin of frequency [freq] and magnitude [mag]. *)
Definition band_step (acc : band_acc) (freq mag : number) : band_acc :=
  let power := mag * mag in
  let '(mkBandAcc d t a b g dc tc ac bc gc) := acc in
  if ge freq 0.5 && (freq <? 4) then mkBandAcc (d + power) t a b g (S dc) tc ac bc gc
  else if ge freq 4 && (freq <? 8) then mkBandAcc d (t + power) a b g dc (S tc) ac bc gc
  else if ge freq 8 && (freq <? 13) then mkBandAcc d t (a + power) b g dc tc (S ac) bc gc
  else if ge freq 13 && (freq <? 30) then mkBandAcc d t a (b + power) g dc tc ac (S bc) gc
  else if ge freq 30 && (freq <=? 45) then mkBandAcc d t a b (g + power) dc tc ac bc (S gc)
  else acc.

(** [count > 0 ? total / count : 0]. *)
Definition band_average (total : number) (count : nat) : number :=
  if (0 <? count)%nat then total / of_nat count else 0.

Section SignalProcessing.

Context {M : MathImpl}.

(** The [order] argument is accepted and not used. *)
Definition butterworthCoeffs (cutoffFreq sampleRate : number) (order : nat) : Coeffs :=
  let wc := Math_tan (Math_PI * cutoffFreq / sampleRate) in
  let wc2 := wc * wc in
  let sqrt2 := Math_sqrt 2 in
  let k := 1 + sqrt2 * wc + wc2 in
  let b0 := wc2 / k in
  let b1 := 2 * wc2 / k in
  let b2 := wc2 / k in
  let a1 := 2 * (wc2 - 1) / k in
  let a2 := (1 - sqrt2 * wc + wc2) / k in
  mkCoeffs [b0; b1; b2] [1; a1; a2].

Definition lowPassFilter (signal : list number) (cutoffFreq sampleRate : number)
    : list number :=
  let c := butterworthCoeffs cutoffFreq sampleRate 2 in
  filtfilt signal (coeff_b c) (coeff_a c).

Definition highPassFilter (signal : list number) (cutoffFreq sampleRate : number)
    : list number :=
  let lowPassed := lowPassFilter signal cutoffFreq sampleRate in
  mapi (fun v i => v - get lowPassed i) signal.

Definition bandPassFilter (signal : list number) (lowFreq highFreq sampleRate : number)
    : list number :=
  let highPassed := highPassFilter signal lowFreq sampleRate in
  let bandPassed := lowPassFilter highPassed highFreq sampleRate in
  bandPassed.

Definition notchCoeffs (notchFreq sampleRate bandwidth : number) : Coeffs :=
  let w0 := 2 * Math_PI * notchFreq / sampleRate in
  let Q := notchFreq / bandwidth in
  let alpha := Math_sin w0 / (2 * Q) in
  let b0 := 1 in
  let b1 := -2 * Math_cos w0 in
  let b2 := 1 in
  let a0 := 1 + alpha in
  let a1 := -2 * Math_cos w0 in
  let a2 := 1 - alpha in
  mkCoeffs [b0 / a0; b1 / a0; b2 / a0] [1; a1 / a0; a2 / a0].

Definition notchFilter (signal : list number) (notchFreq sampleRate bandwidth : number)
    : list number :=
  let c := notchCoeffs notchFreq sampleRate bandwidth in
  filtfilt signal (coeff_b c) (coeff_a c).

Record PreprocessingResult : Type := mkPreprocessingResult {
  original : list number;
  afterBandpass : list number;
  afterNotch : list number;
  final : list number
}.

Definition preprocessSignal (signal : list number)
    (sampleRate bandpassLow bandpassHigh notchFreq : number) : PreprocessingResult :=
  let afterBandpass := bandPassFilter signal bandpassLow bandpassHigh sampleRate in
  let afterNotch := notchFilter afterBandpass notchFreq sampleRate 2 in
  mkPreprocessingResult signal afterBandpass afterNotch afterNotch.

(** The real and imaginary sums of [computeFFT] for bin [k]. *)
Definition dft_sums (signal : list number) (k : nat) : number * number :=
  let n := length signal in
  for_loop n
    (fun ri t =>
       let angle := 2 * Math_PI * of_nat k * of_nat t / of_nat n in
       (fst ri + get signal t * Math_cos angle,
        snd ri - get signal t * Math_sin angle))
    (0, 0).

Definition bin_frequency (n : nat) (sampleRate : number) (k : nat) : number :=
  of_nat k * sampleRate / of_nat n.

Definition bin_magnitude (signal : list number) (k : nat) : number :=
  let '(real, imag) := dft_sums signal k in
  Math_sqrt (real * real + imag * imag) / of_nat (length signal).

(** [{ frequencies, magnitudes }]. *)
Definition computeFFT (signal : list number) (sampleRate : number)
    : list number * list number :=
  let n := length signal in
  let numFreqs := (n / 2)%nat in
  (map (bin_frequency n sampleRate) (seq 0 numFreqs),
   map (bin_magnitude signal) (seq 0 numFreqs)).

Definition calculateBandPowers (signal : list number) (sampleRate : number)
    : BandPowers :=
  let '(frequencies, magnitudes) := computeFFT signal sampleRate in
  let acc :=
    for_loop (length frequencies)
      (fun acc i => band_step acc (get frequencies i) (get magnitudes i))
      (mkBandAcc 0 0 0 0 0 O O O O O) in
  mkBandPowers
    (band_average (acc_delta acc) (deltaCount acc))
    (band_average (acc_theta acc) (thetaCount acc))
    (band_average (acc_alpha acc) (alphaCount acc))
    (band_average (acc_beta acc) (betaCount acc))
    (band_average (acc_gamma acc) (gammaCount acc)).

End SignalProcessing.

(** ** emotion-classifier.ts *)

Record Probabilities : Type := mkProbabilities {
  prob_happy : number;
  prob_neutral : number;
  prob_sad : number
}.

Record EmotionPrediction : Type := mkEmotionPrediction {
  pred_emotion : EmotionType;
  confidence : number;
  probabilities : Probabilities
}.

(** [a.slice(start, end)] with integer arguments: a negative index counts
    from the end, and both are clamped to the array. *)
Definition js_slice {A : Type} (a : list A) (start stop : Z) : list A :=
  let len := Z.of_nat (length a) in
  let clamp (k : Z) := if (k <? 0)%Z then Z.max (len + k) 0 else Z.min k len in
  let from := clamp start in
  let to := clamp stop in
  firstn (Z.to_nat (to - from)) (skipn (Z.to_nat from) a).

(** [normalizeFeatures]: the column minima and maxima, then the rescaling. *)
Definition column_fold (f : number -> number -> number) (init : number)
    (numFeatures : nat) (features : list (list number)) : list number :=
  fold_left
    (fun acc row => mapi (fun m i => f m (get row i)) acc)
    features (repeat init numFeatures).

Definition normalizeFeatures (features : list (list number))
    : option (list (list number)) :=
  match features with
  | [] => None
  | row0 :: _ =>
      let numFeatures := length row0 in
      let mins := column_fold Math_min infinity numFeatures features in
      let maxs := column_fold Math_max neg_infinity numFeatures features in
      Some (map (fun row =>
                   mapi (fun v i =>
                           let range := get maxs i - get mins i in
                           if gt range 0 then (v - get mins i) / range else 0.5)
                        row)
                features)
  end.

(** The selection [predictEmotion] makes among a fitted model's outputs. *)
Definition select_from_zero (p : Probabilities) : EmotionPrediction :=
  let maxProb := 0 in
  let emotion := neutral in
  let '(maxProb, emotion) :=
    if gt (prob_happy p) maxProb then (prob_happy p, happy) else (maxProb, emotion) in
  let '(maxProb, emotion) :=
    if gt (prob_neutral p) maxProb then (prob_neutral p, neutral) else (maxProb, emotion) in
  let '(maxProb, emotion) :=
    if gt (prob_sad p) maxProb then (prob_sad p, sad) else (maxProb, emotion) in
  mkEmotionPrediction emotion maxProb p.

(** A fitted TensorFlow model, seen as the function from the feature
    sequence to its output vector. *)
Definition LayersModel := list (list number) -> list number.

Section Classifier.

Context {M : MathImpl}.

(** [extractFeatures], for a [sequenceLength] of at least 2 (the callers
    leave it at 10 and [windowSize] at 256). *)
Definition extractFeatures (signal : list number) (sampleRate : number)
    (windowSize sequenceLength : nat) : list (list number) :=
  let stepSize :=
    ((Z.of_nat (length signal) - Z.of_nat windowSize)
     / (Z.of_nat sequenceLength - 1))%Z in
  map (fun i =>
         let start := (Z.of_nat i * stepSize)%Z in
         let stop := (start + Z.of_nat windowSize)%Z in
         let window := js_slice signal start (Z.min stop (Z.of_nat (length signal))) in
         let window := window ++ repeat 0 (windowSize - length window) in
         let bandPowers := calculateBandPowers window sampleRate in
         [delta bandPowers; theta bandPowers; alpha bandPowers;
          beta bandPowers; gamma bandPowers])
      (seq 0 sequenceLength).

Definition ruleBasedClassification (signal : list number) (sampleRate : number)
    : EmotionPrediction :=
  let bandPowers := calculateBandPowers signal sampleRate in
  let total := delta bandPowers + theta bandPowers + alpha bandPowers
               + beta bandPowers + gamma bandPowers in
  let normalized := mkBandPowers
    (delta bandPowers / total)
    (theta bandPowers / total)
    (alpha bandPowers / total)
    (beta bandPowers / total)
    (gamma bandPowers / total) in
  let happyScore :=
    alpha normalized * 1.5 + beta normalized * 0.8 + gamma normalized * 1.2 in
  let neutralScore :=
    alpha normalized * 1.0 + beta normalized * 1.0 + theta normalized * 0.5 in
  let sadScore :=
    theta normalized * 1.5 + delta normalized * 1.2 - alpha normalized * 0.5 in
  let expHappy := Math_exp happyScore in
  let expNeutral := Math_exp neutralScore in
  let expSad := Math_exp (sadScore * 0.8) in
  let expSum := expHappy + expNeutral + expSad in
  let probabilities :=
    mkProbabilities (expHappy / expSum) (expNeutral / expSum) (expSad / expSum) in
  let emotion := neutral in
  let maxProb := prob_neutral probabilities in
  let '(maxProb, emotion) :=
    if gt (prob_happy probabilities) maxProb
    then (prob_happy probabilities, happy) else (maxProb, emotion) in
  let '(maxProb, emotion) :=
    if gt (prob_sad probabilities) maxProb
    then (prob_sad probabilities, sad) else (maxProb, emotion) in
  mkEmotionPrediction emotion maxProb probabilities.

(** [predictEmotion]; [model] is the module's variable of that name, [None]
    for [null].  There is no result when [normalizeFeatures] throws. *)
Definition predictEmotion (model : option LayersModel) (signal : list number)
    (sampleRate : number) : option EmotionPrediction :=
  match model with
  | None => Some (ruleBasedClassification signal sampleRate)
  | Some predict =>
      let features := extractFeatures signal sampleRate 256 10 in
      normalizedFeatures <- normalizeFeatures features ;;
      let probs := predict normalizedFeatures in
      Some (select_from_zero
              (mkProbabilities (get probs 0) (get probs 1) (get probs 2)))
  end.

End Classifier.

(** ** ica-processing.ts: the statistical strategy *)

Record ICAResult : Type := mkICAResult {
  cleanSignal : list number;
  components : list (list number);
  removedArtifacts : list number;
  artifactIndices : list nat
}.

(** [signal.reduce((a, b) => a + b, 0) / n]. *)
Definition signal_mean (signal : list number) : number :=
  sum signal / of_nat (length signal).

(** [Math.sqrt(signal.reduce((sum, v) => sum + Math.pow(v - mean, 2), 0) / n)]. *)
Definition signal_std (signal : list number) : number :=
  let mean := signal_mean signal in
  Math_sqrt (fold_left (fun sum v => sum + Math_pow_2 (v - mean)) signal 0
             / of_nat (length signal)).

(** [Math.abs(signal[i] - mean) / std]. *)
Definition deviation (signal : list number) (i : nat) : number :=
  Math_abs (get signal i - signal_mean signal) / signal_std signal.

(** The three arrays the loop of [removeArtifactsSimple] pushes to. *)
Record simple_state : Type := mkSimple {
  st_clean : list number;
  st_removed : list number;
  st_indices : list nat
}.

(** One pass of the loop body at index [i]. *)
Definition simple_step (signal : list number) (threshold : number)
    (st : simple_state) (i : nat) : simple_state :=
  let n := length signal in
  let mean := signal_mean signal in
  if gt (deviation signal i) threshold then
    let left := if (0 <? i)%nat then get signal (i - 1) else mean in
    let right := if (i <? n - 1)%nat then get signal (i + 1) else mean in
    let clean := st_clean st ++ [(left + right) / 2] in
    mkSimple clean
             (st_removed st ++ [get signal i - get clean i])
             (st_indices st ++ [i])
  else
    mkSimple (st_clean st ++ [get signal i])
             (st_removed st ++ [0])
             (st_indices st).

Definition removeArtifactsSimple (signal : list number) (threshold : number)
    : ICAResult :=
  let n := length signal in
  let st := for_loop n (simple_step signal threshold) (mkSimple [] [] []) in
  mkICAResult (st_clean st) [signal] (st_removed st) (st_indices st).

(** What the loop of [removeArtifactsSimple] writes, index by index. *)
(** The value pushed for a flagged sample: the mean of its two neighbours in
    the input, the global mean standing in for a missing neighbour. *)
Definition interpolated (signal : list number) (i : nat) : number :=
  let mean := signal_mean signal in
  let left := if (0 <? i)%nat then get signal (i - 1) else mean in
  let right := if (i <? length signal - 1)%nat then get signal (i + 1) else mean in
  (left + right) / 2.

(** What the loop has written at index [j] once it has passed it. *)
Definition written_at (signal : list number) (threshold : number)
    (st : simple_state) (j : nat) : Prop :=
  if gt (deviation signal j) threshold then
    get (st_clean st) j = interpolated signal j /\
    get (st_removed st) j = get signal j - interpolated signal j /\
    In j (st_indices st)
  else
    get (st_clean st) j = get signal j /\
    get (st_removed st) j = 0 /\
    ~ In j (st_indices st).


(** ** ica-processing.ts: the ICA strategy

    The matrices come from the ml-matrix package.  Its products, transpose
    and scaling are written out; its eigenvalue decomposition and its
    pseudo-inverse are parameters ([MatrixLib]), taken to return on every
    matrix. *)

Definition matrix := list (list number).

Class MatrixLib : Type := mkMatrixLib {
  (** [new EVD(m)]: [realEigenvalues] and the rows of [eigenvectorMatrix]. *)
  EVD : matrix -> list number * matrix;
  pseudoInverse : matrix -> matrix
}.

Definition columns (m : matrix) : nat := length (nth 0 m []).

Definition entry (m : matrix) (i j : nat) : number := get (nth i m []) j.

Definition transpose (m : matrix) : matrix :=
  map (fun j => map (fun row => get row j) m) (seq 0 (columns m)).

Definition mmul (a b : matrix) : matrix :=
  map (fun row =>
         map (fun j =>
                for_loop (columns a) (fun s k => s + get row k * entry b k j) 0)
             (seq 0 (columns b)))
      a.

Definition mdiv (m : matrix) (x : number) : matrix :=
  map (map (fun v => v / x)) m.

(** [data[0].length]; reading [.length] of [undefined] throws. *)
Definition row0_length (data : matrix) : option nat :=
  match data with
  | [] => None
  | row :: _ => Some (length row)
  end.

Definition centerData (data : matrix) : option (matrix * list number) :=
  numSamples <- row0_length data ;;
  let means := map (fun row => sum row / of_nat numSamples) data in
  let centered :=
    map (fun row => let mean := sum row / of_nat numSamples in
                    map (fun v => v - mean) row) data in
  Some (centered, means).

(** The diagonal matrix [D] of [whitenData]. *)
Definition whitening_scale (eigenvalue : number) : number :=
  1 / Math_sqrt (Math_max eigenvalue 1e-10).

Definition scaling_matrix (numChannels : nat) (eigenvalues : list number) : matrix :=
  map (fun i =>
         map (fun j => if (i =? j)%nat then whitening_scale (get eigenvalues i) else 0)
             (seq 0 numChannels))
      (seq 0 numChannels).

(** [sum + v * v] over [w], then the square root. *)
Definition norm2 (w : list number) : number :=
  Math_sqrt (fold_left (fun sum v => sum + v * v) w 0).

(** [w.reduce((sum, v, i) => sum + v * other[i], 0)]. *)
Definition dot_indexed (w other : list number) : number :=
  fold_left (fun sum p => sum + snd p * get other (fst p))
            (combine (seq 0 (length w)) w) 0.

Definition delays : list nat := [0; 5; 10; 15]%nat.

(** The pseudo-channels: the signal rotated left by each of the first
    [numComponents] delays. *)
Definition delayed_signals (signal : list number) (numComponents : nat) : matrix :=
  map (fun delay => skipn delay signal ++ firstn delay signal)
      (firstn numComponents delays).

(** The shapes ml-matrix returns: the eigenvector matrix of an n x n matrix
    is n x n, and the pseudo-inverse of a matrix has one row per column of
    it. *)
Definition well_shaped (L : MatrixLib) : Prop :=
  (forall m : matrix, length (pseudoInverse m) = columns m) /\
  (forall m : matrix,
     m <> [] -> length (snd (EVD m)) = length m /\ columns (snd (EVD m)) = length m).

(** [dataMatrix.mmul(dataMatrix.transpose()).div(numSamples)]. *)
Definition covariance (dataMatrix : matrix) (numSamples : nat) : matrix :=
  mdiv (mmul dataMatrix (transpose dataMatrix)) (of_nat numSamples).

Definition maxIter : nat := 100.
Definition tolerance : number := 1e-6.

Section ICA.

Context {M : MathImpl} {L : MatrixLib}.

Definition whitenData (data : matrix) : option (matrix * matrix) :=
  let numChannels := length data in
  numSamples <- row0_length data ;;
  let dataMatrix := data in
  let covMatrix := covariance dataMatrix numSamples in
  let '(eigenvalues, eigenvectors) := EVD covMatrix in
  let D := scaling_matrix numChannels eigenvalues in
  let whiteningMatrix := mmul D (transpose eigenvectors) in
  let whitened := mmul whiteningMatrix dataMatrix in
  Some (whitened, whiteningMatrix).

Definition g (u : number) : number := Math_tanh u.
Definition gPrime (u : number) : number := 1 - Math_pow_2 (Math_tanh u).

Definition fastICAIteration (w : list number) (X : matrix) : list number :=
  let numSamples := columns X in
  let numChannels := length X in
  let wX :=
    map (fun j => for_loop numChannels (fun sum i => sum + get w i * entry X i j) 0)
        (seq 0 numSamples) in
  let term1 :=
    map (fun i =>
           for_loop numSamples (fun t j => t + entry X i j * g (get wX j)) 0
           / of_nat numSamples)
        (seq 0 numChannels) in
  let term2Scalar :=
    for_loop numSamples (fun t j => t + gPrime (get wX j)) 0 / of_nat numSamples in
  let wNew :=
    map (fun i => get term1 i - term2Scalar * get w i) (seq 0 numChannels) in
  let norm := norm2 wNew in
  map (fun v => v / or_one norm) wNew.

(** The statistics [detectArtifacts] takes of one component: [mean],
    [std], and [kurtosis], which divides by [std]. *)
Definition component_mean (comp : list number) : number :=
  sum comp / of_nat (length comp).

Definition component_std (comp : list number) : number :=
  let n := length comp in
  let mean := component_mean comp in
  let variance :=
    fold_left (fun sum v => sum + Math_pow_2 (v - mean)) comp 0 / of_nat n in
  Math_sqrt variance.

Definition component_kurtosis (comp : list number) : number :=
  let n := length comp in
  let mean := component_mean comp in
  let std := component_std comp in
  let fourthMoment :=
    fold_left (fun sum v => sum + Math_pow_4 ((v - mean) / std)) comp 0
    / of_nat n in
  fourthMoment - 3.

Definition detectArtifacts (components : matrix) : list nat :=
  for_loop (length components)
    (fun artifactIndices i =>
       let comp := nth i components [] in
       let std := component_std comp in
       let kurtosis := component_kurtosis comp in
       let maxAmp := Math_max_list (map Math_abs comp) in
       if gt kurtosis 5 || gt maxAmp (std * 6)
       then artifactIndices ++ [i] else artifactIndices)
    [].

(** The random unit rows [W] starts from; the draws are taken row by row. *)
Definition initial_unmixing (rnd : random_source) (numChannels : nat) : matrix :=
  map (fun i =>
         let w := map (fun j => rnd (i * numChannels + j)%nat - 0.5) (seq 0 numChannels) in
         let norm := norm2 w in
         map (fun v => v / norm) w)
      (seq 0 numChannels).

(** [wNew[i] -= dot * W[p][i]] for the rows [p < c] already settled. *)
Definition decorrelate (W : matrix) (c numChannels : nat) (wNew : list number)
    : list number :=
  for_loop c
    (fun wNew p =>
       let dot := dot_indexed wNew (nth p W []) in
       for_loop numChannels
         (fun wNew i => array_set wNew i (get wNew i - dot * entry W p i)) wNew)
    wNew.

(** The inner loop over [iter], which leaves at convergence or after
    [remaining] more passes. *)
Fixpoint iterate_component (remaining : nat) (W whitened : matrix)
    (c numChannels : nat) (w : list number) : list number :=
  match remaining with
  | O => w
  | S remaining' =>
      let wNew := fastICAIteration w whitened in
      let wNew := decorrelate W c numChannels wNew in
      let norm := norm2 wNew in
      let wNew :=
        for_loop numChannels
          (fun wNew i => array_set wNew i (get wNew i / or_one norm)) wNew in
      let diff := Math_abs (1 - Math_abs (dot_indexed w wNew)) in
      if diff <? tolerance then wNew
      else iterate_component remaining' W whitened c numChannels wNew
  end.

(** [W[c] = w], on a row that exists. *)
Fixpoint set_row (W : matrix) (c : nat) (w : list number) : matrix :=
  match c, W with
  | _, [] => []
  | O, _ :: rest => w :: rest
  | S c', row :: rest => row :: set_row rest c' w
  end.

Definition fastICA (W0 whitened : matrix) (numChannels : nat) : matrix :=
  for_loop numChannels
    (fun W c =>
       let w := nth c W [] in
       set_row W c (iterate_component maxIter W whitened c numChannels w))
    W0.

(** [numComponents] is a count, 4 when the caller leaves it out.  There is
    no result when a step throws: [data[0].length] without channels, or
    [reconstructed[0].map] on a product without rows. *)
Definition removeArtifactsICA (rnd : random_source) (signal : list number)
    (numComponents : nat) : option ICAResult :=
  let delayedSignals := delayed_signals signal numComponents in
  '(centered, means) <- centerData delayedSignals ;;
  '(whitened, whiteningMatrix) <- whitenData centered ;;
  let numChannels := length whitened in
  let W := initial_unmixing rnd numChannels in
  let W := fastICA W whitened numChannels in
  let wMatrix := W in
  let components := mmul wMatrix whitened in
  let artifactIndices := detectArtifacts components in
  let cleanComponents :=
    mapi (fun comp i =>
            if existsb (Nat.eqb i) artifactIndices
            then repeat 0 (length comp) else comp)
         components in
  let wInverse := pseudoInverse wMatrix in
  let cleanWhitened := mmul wInverse cleanComponents in
  let whiteningInverse := pseudoInverse whiteningMatrix in
  let cleanCentered := mmul whiteningInverse cleanWhitened in
  let reconstructed := cleanCentered in
  row0 <- nth_error reconstructed 0 ;;
  let cleanSignal := map (fun v => v + get means 0) row0 in
  let removedArtifacts := mapi (fun v i => v - get cleanSignal i) signal in
  Some (mkICAResult cleanSignal components removedArtifacts artifactIndices).

End ICA.

(** ** Reading the order of binary64 values

    The key of a value that is not NaN: its class, then exponent and
    mantissa (negated on the negative side).  [key_lt] is the lexicographic
    order on keys. *)
Definition SFkey (x : spec_float) : option (Z * Z * Z) :=
  match x with
  | S754_nan => None
  | S754_infinity true => Some (-2, 0, 0)%Z
  | S754_finite true m e => Some (-1, - e, Z.neg m)%Z
  | S754_zero _ => Some (0, 0, 0)%Z
  | S754_finite false m e => Some (1, e, Z.pos m)%Z
  | S754_infinity false => Some (2, 0, 0)%Z
  end.

Definition key_lt (a b : Z * Z * Z) : Prop :=
  let '(a1, a2, a3) := a in
  let '(b1, b2, b3) := b in
  (a1 < b1 \/ (a1 = b1 /\ (a2 < b2 \/ (a2 = b2 /\ a3 < b3))))%Z.

(** ** The spec's wording, for comparison with the code *)

(** [round(x)] as the spec writes the signal length: the nearest integer,
    a half rounding up, computed exactly on the binary64 value [±m·2^e]
    (for [e < 0], [floor((±m + 2^(-e-1)) / 2^(-e))]). *)
Definition spec_round (x : number) : floored :=
  match Prim2SF x with
  | S754_zero _ => FlInt 0
  | S754_nan => FlNaN
  | S754_infinity false => FlPosInf
  | S754_infinity true => FlNegInf
  | S754_finite s m e =>
      let zm := if s then Z.neg m else Z.pos m in
      if (0 <=? e)%Z then FlInt (Z.shiftl zm e)
      else FlInt (Z.shiftl (zm + 2 ^ (- e - 1)) e)
  end.

(** The length the spec's sentence gives a synthesized signal. *)
Definition spec_rounded_length (duration sampleRate : number) : option nat :=
  for_count (spec_round (duration * sampleRate)).

(** The spec's stability condition on a second-order section with
    denominator [[1, a1, a2]]: both roots of [z^2 + a1 z + a2] lie inside
    the unit circle exactly when [|a2| < 1] and [|a1| < 1 + a2]. *)
Definition poles_inside_unit_circle (a : list number) : bool :=
  let a1 := get a 1 in
  let a2 := get a 2 in
  (Math_abs a2 <? 1) && (Math_abs a1 <? 1 + a2).

(** The spec's band power.  A bin belongs to a band when its frequency is in
    [[lowHz, highHz)], the upper bound included when [inclusive] is set. *)
Definition in_band (lowHz highHz : number) (inclusive : bool) (freq : number) : bool :=
  ge freq lowHz && (if inclusive then freq <=? highHz else freq <? highHz).

(** The squared magnitudes of the bins of a band, in bin order. *)
Definition powers_in (lowHz highHz : number) (inclusive : bool)
    (bins : list (number * number)) : list number :=
  map (fun bin => snd bin * snd bin)
      (filter (fun bin => in_band lowHz highHz inclusive (fst bin)) bins).

(** Their mean, and 0 for a band without bins. *)
Definition mean_square_in_band (lowHz highHz : number) (inclusive : bool)
    (frequencies magnitudes : list number) : number :=
  let powers := powers_in lowHz highHz inclusive (combine frequencies magnitudes) in
  if (0 <? length powers)%nat then sum powers / of_nat (length powers) else 0.

(** The spec's direct DFT of a signal of [n] samples at bin [k]:
    [sum x_t cos(2 pi k t / n) - i sum x_t sin(2 pi k t / n)], each sum taken
    in sample order from 0, the imaginary one by subtracting its terms. *)
Definition spec_dft_real {M : MathImpl} (signal : list number) (k : nat) : number :=
  fold_left
    (fun re t =>
       re + get signal t
            * Math_cos (2 * Math_PI * of_nat k * of_nat t / of_nat (length signal)))
    (seq 0 (length signal)) 0.

Definition spec_dft_imag {M : MathImpl} (signal : list number) (k : nat) : number :=
  fold_left
    (fun im t =>
       im - get signal t
            * Math_sin (2 * Math_PI * of_nat k * of_nat t / of_nat (length signal)))
    (seq 0 (length signal)) 0.

(** Its magnitude, normalized by [n]. *)
Definition spec_dft_magnitude {M : MathImpl} (signal : list number) (k : nat)
    : number :=
  Math_sqrt (spec_dft_real signal k * spec_dft_real signal k
             + spec_dft_imag signal k * spec_dft_imag signal k)
  / of_nat (length signal).

(** The bins the spec keeps: the first [floor(n/2)], bin [k] at frequency
    [k * sampleRate / n]. *)
Definition spec_frequencies (n : nat) (sampleRate : number) : list number :=
  map (fun k => of_nat k * sampleRate / of_nat n) (seq 0 (n / 2)).

Definition spec_magnitudes {M : MathImpl} (signal : list number) : list number :=
  map (spec_dft_magnitude signal) (seq 0 (length signal / 2)).

(** ** Inputs of the worked examples *)

(** A replayable stand-in for [Math.random]: 0, 0.1, ..., 0.9, 0, ... *)
Definition demo_random : random_source := fun k => of_nat (k mod 10) / 10.

Definition demo_params : CustomSignalParams :=
  mkCustomSignalParams 0.9 0.5 0.3 0.2 0.3 0.1 Hz50 0.2.

(** A stand-in for ml-matrix on the all-zero signal, whose covariance matrix
    is zero: zero eigenvalues with the identity as eigenvectors, and the
    transpose for a pseudo-inverse. *)
Definition identity_matrix (n : nat) : matrix :=
  map (fun i => map (fun j => if (i =? j)%nat then 1 else 0) (seq 0 n)) (seq 0 n).

Definition demo_matrix_lib : MatrixLib :=
  mkMatrixLib (fun m => (repeat 0 (length m), identity_matrix (length m))) transpose.

(** ** Sign and finiteness of binary64 values *)

(** A value that is neither negative nor minus infinity: NaN, a zero, a
    positive value or plus infinity. *)
Definition SFnonneg (x : spec_float) : Prop :=
  match x with
  | S754_finite true _ _ | S754_infinity true => False
  | _ => True
  end.

(** [Number.isFinite(x)], read off the binary64 value. *)
Definition finite_number (x : number) : bool :=
  match Prim2SF x with
  | S754_zero _ | S754_finite _ _ _ => true
  | _ => false
  end.

(** [x < 0] is false: [x] is NaN, a zero, positive or plus infinity. *)
Definition never_negative (x : number) : Prop := (x <? 0) = false.

(** ** page.tsx: the processing the filter panel starts *)

Record FilterSettings : Type := mkFilterSettings {
  applyBandpass : bool;
  bandpassLow : number;
  bandpassHigh : number;
  applyNotch : bool;
  notchFreq : PowerNoiseFreq;
  applyICA : bool;
  icaThreshold : number
}.

(** What [handleApplyFilters] stores: the processed signal, its band powers
    and the prediction (none when [predictEmotion] throws). *)
Record ProcessingOutcome : Type := mkProcessingOutcome {
  processedSignal : list number;
  outcome_bandPowers : BandPowers;
  emotionPrediction : option EmotionPrediction
}.

Section Page.

Context {M : MathImpl}.

(** [handleApplyFilters]; without a loaded signal nothing is processed. *)
Definition handleApplyFilters (model : option LayersModel)
    (currentSignal : option BrainSignal) (settings : FilterSettings)
    : option ProcessingOutcome :=
  match currentSignal with
  | None => None
  | Some currentSignal =>
      let processed := data currentSignal in
      let processed :=
        if applyBandpass settings then
          let result := preprocessSignal processed (sampleRate currentSignal)
                          (bandpassLow settings) (bandpassHigh settings)
                          (powerNoiseFreq_number (notchFreq settings)) in
          if applyNotch settings then afterNotch result else afterBandpass result
        else if applyNotch settings then
          let result := preprocessSignal processed (sampleRate currentSignal)
                          0.1 100 (powerNoiseFreq_number (notchFreq settings)) in
          afterNotch result
        else processed in
      let processed :=
        if applyICA settings then
          let icaResult := removeArtifactsSimple processed (icaThreshold settings) in
          cleanSignal icaResult
        else processed in
      let powers := calculateBandPowers processed (sampleRate currentSignal) in
      let prediction := predictEmotion model processed (sampleRate currentSignal) in
      Some (mkProcessingOutcome processed powers prediction)
  end.

End Page.

(** ** Reading a prediction *)

(** The probability an [EmotionPrediction] gives its own label. *)
Definition probability_of (p : Probabilities) (e : EmotionType) : number :=
  match e with
  | happy => prob_happy p
  | neutral => prob_neutral p
  | sad => prob_sad p
  end.

(** ** Finite filter coefficients *)

(** Both coefficient lists of a filter hold finite numbers only. *)
Definition finite_coeffs (c : Coeffs) : bool :=
  forallb finite_number (coeff_b c) && forallb finite_number (coeff_a c).

(** ** mind-garden/page.tsx: the garden the predictions drive *)

Inductive WeatherState : Type := sunny | cloudy | rainy.

Record GameState : Type := mkGameState {
  weather : WeatherState;
  growthStage : number;
  health : number;
  flowers : number;
  birds : number;
  weeds : number;
  score : number;
  isPlaying : bool;
  emotionHistory : list EmotionPrediction
}.

(** The state the page starts from and [resetGame] restores. *)
Definition initialGameState : GameState :=
  mkGameState cloudy 0 50 0 0 0 0 false [].

(** [updateGameState]; [r1] and [r2] are the two [Math.random()] draws of
    the happy and the sad branch, in the order they are made. *)
Definition updateGameState (prediction : EmotionPrediction) (r1 r2 : number)
    (prev : GameState) : GameState :=
  let history :=
    js_slice (emotionHistory prev) (-9) (Z.of_nat (length (emotionHistory prev)))
    ++ [prediction] in
  match pred_emotion prediction with
  | happy =>
      mkGameState sunny
        (if gt (health prev) 70 && (growthStage prev <? 5)
         then Math_min 5 (growthStage prev + 1) else growthStage prev)
        (Math_min 100 (health prev + 5))
        (Math_min 8 (flowers prev + (if gt r1 0.7 then 1 else 0)))
        (Math_min 3 (birds prev + (if gt r2 0.8 then 1 else 0)))
        (Math_max 0 (weeds prev - 1))
        (score prev + 10)
        (isPlaying prev)
        history
  | sad =>
      mkGameState rainy
        (if (health prev <? 30) && gt (growthStage prev) 0
         then Math_max 0 (growthStage prev - 1) else growthStage prev)
        (Math_max 0 (health prev - 8))
        (Math_max 0 (flowers prev - (if gt r1 0.5 then 1 else 0)))
        (Math_max 0 (birds prev - 1))
        (Math_min 5 (weeds prev + (if gt r2 0.5 then 1 else 0)))
        (score prev)
        (isPlaying prev)
        history
  | neutral =>
      mkGameState cloudy
        (growthStage prev)
        (Math_min 100 (health prev + 1))
        (flowers prev)
        (birds prev)
        (weeds prev)
        (score prev + 2)
        (isPlaying prev)
        history
  end.

(** What changes the game state: a prediction arriving with its two draws,
    and the three buttons. *)
Inductive GameEvent : Type :=
| Predicted (prediction : EmotionPrediction) (r1 r2 : number)
| StartGame
| PauseGame
| ResetGame.

Definition set_playing (playing : bool) (s : GameState) : GameState :=
  mkGameState (weather s) (growthStage s) (health s) (flowers s) (birds s)
              (weeds s) (score s) playing (emotionHistory s).

Definition handleGameEvent (s : GameState) (e : GameEvent) : GameState :=
  match e with
  | Predicted prediction r1 r2 => updateGameState prediction r1 r2 s
  | StartGame => set_playing true s
  | PauseGame => set_playing false s
  | ResetGame => initialGameState
  end.

(** [x] is one of the whole numbers 0, 1, ..., [bound]. *)
Definition whole_upto (bound : nat) (x : number) : Prop :=
  exists k, (k <= bound)%nat /\ x = of_nat k.

(** The ranges the page draws: health as a percentage, eight flower and
    three bird positions, five weeds, six growth labels, and the last ten
    predictions. *)
Definition garden_in_bounds (s : GameState) : Prop :=
  whole_upto 100 (health s) /\
  whole_upto 8 (flowers s) /\
  whole_upto 3 (birds s) /\
  whole_upto 5 (weeds s) /\
  whole_upto 5 (growthStage s) /\
  (length (emotionHistory s) <= 10)%nat.

(** * Properties *)

(** ** Loops and array reads *)

Lemma for_loop_S {S : Type} (k : nat) (body : S -> nat -> S) (init : S) :
  for_loop (Datatypes.S k) body init = body (for_loop k body init) k.
Proof.
  unfold for_loop. rewrite seq_S, fold_left_app. reflexivity.
Qed.

Lemma get_app_old (a : list number) (x : number) (j : nat) :
  (j < length a)%nat -> get (a ++ [x]) j = get a j.
Proof. intros Hj. unfold get. now rewrite app_nth1. Qed.

Lemma get_app_new (a : list number) (x : number) (k : nat) :
  length a = k -> get (a ++ [x]) k = x.
Proof.
  intros <-. unfold get. rewrite app_nth2 by lia. now rewrite Nat.sub_diag.
Qed.

Lemma simple_loop_invariant (signal : list number) (threshold : number) (k : nat) :
  let st := for_loop k (simple_step signal threshold) (mkSimple [] [] []) in
  length (st_clean st) = k /\
  length (st_removed st) = k /\
  (forall j, In j (st_indices st) -> (j < k)%nat) /\
  (forall j, (j < k)%nat -> written_at signal threshold st j).
Proof.
  induction k as [|k IH]; cbn zeta.
  - cbn. repeat split; intros; try contradiction; lia.
  - rewrite for_loop_S.
    set (st := for_loop k (simple_step signal threshold) (mkSimple [] [] [])) in *.
    cbn zeta in IH. destruct IH as (Hc & Hr & Hidx & Hw).
    assert (Hold : forall j, (j < k)%nat ->
              written_at signal threshold (simple_step signal threshold st k) j).
    { intros j Hj. specialize (Hw j Hj). unfold written_at in *.
      unfold simple_step.
      destruct (gt (deviation signal k) threshold); cbn [st_clean st_removed st_indices];
        destruct (gt (deviation signal j) threshold);
        rewrite !get_app_old by lia; destruct Hw as (H1 & H2 & H3);
        repeat split; auto.
      - apply in_or_app. now left.
      - intros Hin. apply in_app_or in Hin. destruct Hin as [Hin|[Hin|[]]]; [auto|lia]. }
    unfold simple_step at 1 2 3.
    destruct (gt (deviation signal k) threshold) eqn:Hk;
      cbn [st_clean st_removed st_indices]; rewrite ?length_app; cbn [length];
      (split; [lia|]); (split; [lia|]); split.
    + intros j Hin. apply in_app_or in Hin.
      destruct Hin as [Hin|[Hin|[]]]; [apply Hidx in Hin|]; lia.
    + intros j Hj. destruct (Nat.eq_dec j k) as [->|Hne].
      * unfold written_at, simple_step. rewrite Hk.
        cbn [st_clean st_removed st_indices].
        rewrite !(get_app_new _ _ k) by assumption.
        fold (interpolated signal k).
        repeat split. apply in_or_app. right. now left.
      * apply Hold. lia.
    + intros j Hin. apply Hidx in Hin. lia.
    + intros j Hj. destruct (Nat.eq_dec j k) as [->|Hne].
      * unfold written_at, simple_step. rewrite Hk.
        cbn [st_clean st_removed st_indices].
        rewrite !(get_app_new _ _ k) by assumption.
        repeat split. intros Hin. apply Hidx in Hin. lia.
      * apply Hold. lia.
Qed.

(** ** IEEE 754 facts used below

    Each is read off the specification of the primitive operations
    ([Prim2SF] and the [SF*] functions of the standard library). *)

Lemma SFcompare_refl (x : spec_float) :
  x <> S754_nan -> SFcompare x x = Some Eq.
Proof.
  destruct x as [s|s| |s m e]; cbn; intros H; try congruence.
  - now destruct s.
  - destruct s; rewrite Z.compare_refl, Pos.compare_cont_refl; reflexivity.
Qed.

Lemma is_nan_false (x : float) :
  is_nan x = false -> Prim2SF x <> S754_nan.
Proof.
  unfold is_nan. rewrite FloatAxioms.eqb_spec. intros H E. rewrite E in H. discriminate H.
Qed.

(** [x + 0] is [x] again, up to the sign of a zero. *)
Lemma add_zero_eqb (x : float) :
  is_nan x = false -> (x + 0 =? x) = true.
Proof.
  intros H. apply is_nan_false in H.
  rewrite FloatAxioms.eqb_spec, add_spec.
  change (Prim2SF 0) with (S754_zero false).
  unfold SFeqb, SF64add.
  destruct (Prim2SF x) as [s|s| |s m e] eqn:E; try congruence.
  - destruct s; reflexivity.
  - destruct s; reflexivity.
  - cbn [SFadd]. now rewrite SFcompare_refl.
Qed.

(** *** The order of binary64 values

    [SFcompare] orders the values that are not NaN as the lexicographic
    order of a key: the class (negative infinity, negative, zero, positive,
    positive infinity), then exponent and mantissa. *)

Lemma SFcompare_key (x y : spec_float) :
  match SFkey x, SFkey y with
  | Some a, Some b =>
      (SFcompare x y = Some Lt /\ key_lt a b) \/
      (SFcompare x y = Some Eq /\ a = b) \/
      (SFcompare x y = Some Gt /\ key_lt b a)
  | _, _ => SFcompare x y = None
  end.
Proof.
  destruct x as [sx|sx| |sx mx ex], y as [sy|sy| |sy my ey];
    try destruct sx; try destruct sy; cbn -[Z.compare];
    try reflexivity;
    try (left; split; [reflexivity | unfold key_lt; cbn; lia]);
    try (right; left; split; reflexivity);
    try (right; right; split; [reflexivity | unfold key_lt; cbn; lia]);
    change (Pos.compare_cont Eq mx my) with (mx ?= my)%positive;
    destruct (Z.compare_spec ex ey) as [He|He|He];
    destruct (Pos.compare_spec mx my) as [Hm|Hm|Hm]; cbn; subst;
    try (left; split; [reflexivity | unfold key_lt; cbn; lia]);
    try (right; left; split; reflexivity);
    try (right; right; split; [reflexivity | unfold key_lt; cbn; lia]).
Qed.

Lemma key_lt_irrefl (a : Z * Z * Z) : ~ key_lt a a.
Proof. destruct a as [[c e] m]. unfold key_lt. cbn. lia. Qed.

Lemma key_lt_asym (a b : Z * Z * Z) : key_lt a b -> ~ key_lt b a.
Proof. destruct a as [[c e] m], b as [[c' e'] m']. unfold key_lt. cbn. lia. Qed.

Lemma key_lt_trans (a b c : Z * Z * Z) : key_lt a b -> key_lt b c -> key_lt a c.
Proof.
  destruct a as [[a1 a2] a3], b as [[b1 b2] b3], c as [[c1 c2] c3].
  unfold key_lt. cbn. lia.
Qed.

Lemma key_total (a b : Z * Z * Z) : key_lt a b \/ a = b \/ key_lt b a.
Proof.
  destruct a as [[a1 a2] a3], b as [[b1 b2] b3]. unfold key_lt. cbn.
  destruct (Z.lt_trichotomy a1 b1) as [H|[H|H]];
    destruct (Z.lt_trichotomy a2 b2) as [H'|[H'|H']];
    destruct (Z.lt_trichotomy a3 b3) as [H''|[H''|H'']];
    subst; auto; try (left; lia); try (right; right; lia).
Qed.

Lemma ltb_key (x y : float) :
  (x <? y) = true <->
  exists a b, SFkey (Prim2SF x) = Some a /\ SFkey (Prim2SF y) = Some b /\ key_lt a b.
Proof.
  rewrite ltb_spec. unfold SFltb.
  pose proof (SFcompare_key (Prim2SF x) (Prim2SF y)) as H.
  destruct (SFkey (Prim2SF x)) as [a|], (SFkey (Prim2SF y)) as [b|].
  - destruct H as [(-> & H)|[(-> & H)|(-> & H)]]; split; intros H'; try discriminate.
    + now exists a, b.
    + reflexivity.
    + destruct H' as (a' & b' & Ha & Hb & Hlt). inversion Ha. inversion Hb. subst.
      now apply key_lt_irrefl in Hlt.
    + destruct H' as (a' & b' & Ha & Hb & Hlt). inversion Ha. inversion Hb. subst.
      now apply key_lt_asym in Hlt.
  - rewrite H. split; [discriminate|]. intros (a' & b' & _ & Hb & _). discriminate.
  - rewrite H. split; [discriminate|]. intros (a' & b' & Ha & _). discriminate.
  - rewrite H. split; [discriminate|]. intros (a' & b' & Ha & _). discriminate.
Qed.

Lemma leb_key (x y : float) :
  (x <=? y) = true <->
  exists a b, SFkey (Prim2SF x) = Some a /\ SFkey (Prim2SF y) = Some b /\
              (key_lt a b \/ a = b).
Proof.
  rewrite leb_spec. unfold SFleb.
  pose proof (SFcompare_key (Prim2SF x) (Prim2SF y)) as H.
  destruct (SFkey (Prim2SF x)) as [a|], (SFkey (Prim2SF y)) as [b|].
  - destruct H as [(-> & H)|[(-> & H)|(-> & H)]]; split; intros H'; try discriminate.
    + exists a, b. auto.
    + reflexivity.
    + exists a, b. auto.
    + reflexivity.
    + destruct H' as (a' & b' & Ha & Hb & [Hlt|Heq]); inversion Ha; inversion Hb; subst.
      * now apply key_lt_asym in Hlt.
      * now apply key_lt_irrefl in H.
  - rewrite H. split; [discriminate|]. intros (a' & b' & _ & Hb & _). discriminate.
  - rewrite H. split; [discriminate|]. intros (a' & b' & Ha & _). discriminate.
  - rewrite H. split; [discriminate|]. intros (a' & b' & Ha & _). discriminate.
Qed.

Lemma leb_trans (x y z : float) :
  (x <=? y) = true -> (y <=? z) = true -> (x <=? z) = true.
Proof.
  rewrite !leb_key. intros (a & b & Ha & Hb & Hab) (b' & c & Hb' & Hc & Hbc).
  rewrite Hb in Hb'. inversion Hb'. subst b'.
  exists a, c. repeat split; auto.
  destruct Hab as [Hab| ->], Hbc as [Hbc| ->]; auto.
  left. eapply key_lt_trans; eauto.
Qed.

Lemma leb_not_ltb (x y : float) :
  (x <=? y) = true -> (y <? x) = false.
Proof.
  rewrite leb_key. intros (a & b & Ha & Hb & Hab).
  destruct (y <? x) eqn:E; [|reflexivity].
  apply ltb_key in E. destruct E as (b' & a' & Hb' & Ha' & Hlt).
  rewrite Hb in Hb'. rewrite Ha in Ha'. inversion Hb'. inversion Ha'. subst.
  destruct Hab as [Hab| ->].
  - now apply key_lt_asym in Hab.
  - now apply key_lt_irrefl in Hlt.
Qed.

Lemma ltb_leb (x y : float) :
  (x <? y) = true -> (x <=? y) = true.
Proof.
  rewrite ltb_key, leb_key. intros (a & b & Ha & Hb & Hab). exists a, b. auto.
Qed.

Lemma SFkey_not_nan (x : float) :
  is_nan x = false -> exists a, SFkey (Prim2SF x) = Some a.
Proof.
  intros H. apply is_nan_false in H.
  destruct (Prim2SF x) as [s|s| |s m e]; try congruence; destruct s; cbn; eauto.
Qed.

Lemma not_ltb_leb (x y : float) :
  is_nan x = false -> is_nan y = false -> (x <? y) = false -> (y <=? x) = true.
Proof.
  intros Hx Hy Hlt.
  destruct (SFkey_not_nan x Hx) as (a & Ha), (SFkey_not_nan y Hy) as (b & Hb).
  apply leb_key. exists b, a. repeat split; auto.
  destruct (key_total a b) as [H|[H|H]]; auto.
  assert ((x <? y) = true) by (apply ltb_key; eauto). congruence.
Qed.

(** A frequency at or above [b] is not below any [a <= b]. *)
Lemma above_not_below (a b f : float) :
  (a <=? b) = true -> ge f b = true -> (f <? a) = false.
Proof.
  unfold ge. intros Hab Hbf. apply leb_not_ltb. eapply leb_trans; eauto.
Qed.

(** ** The statistical strategy ([removeArtifactsSimple]) *)

Lemma removeArtifactsSimple_written (signal : list number) (threshold : number) (i : nat) :
  (i < length signal)%nat ->
  let r := removeArtifactsSimple signal threshold in
  written_at signal threshold
    (mkSimple (cleanSignal r) (removedArtifacts r) (artifactIndices r)) i.
Proof.
  intros Hi. cbn zeta. unfold removeArtifactsSimple. cbn [cleanSignal removedArtifacts artifactIndices].
  pose proof (simple_loop_invariant signal threshold (length signal)) as H.
  cbn zeta in H. destruct H as (_ & _ & _ & H).
  specialize (H i Hi).
  destruct (for_loop (length signal) _ _) as [c r ix]. exact H.
Qed.

Lemma removeArtifactsSimple_lengths (signal : list number) (threshold : number) :
  let r := removeArtifactsSimple signal threshold in
  length (cleanSignal r) = length signal /\
  length (removedArtifacts r) = length signal.
Proof.
  cbn zeta. unfold removeArtifactsSimple. cbn [cleanSignal removedArtifacts].
  pose proof (simple_loop_invariant signal threshold (length signal)) as H.
  cbn zeta in H. tauto.
Qed.

(** C1, as the code has it.  [cleanSignal] and [removedArtifacts] have the
    length of the signal.  At a sample that is not flagged and is not NaN,
    [cleanSignal[i] + removedArtifacts[i] == signal[i]] holds exactly.  At a
    flagged sample [cleanSignal[i]] is the neighbour interpolation and
    [removedArtifacts[i]] is the rounded difference
    [signal[i] - cleanSignal[i]]: the sum gives [signal[i]] back only up to
    rounding. *)
Theorem simple_reconstruction (signal : list number) (threshold : number) (i : nat) :
  (i < length signal)%nat ->
  let r := removeArtifactsSimple signal threshold in
  (length (cleanSignal r) = length signal /\
   length (removedArtifacts r) = length signal) /\
  (gt (deviation signal i) threshold = false ->
   is_nan (get signal i) = false ->
   (get (cleanSignal r) i + get (removedArtifacts r) i =? get signal i) = true) /\
  (gt (deviation signal i) threshold = true ->
   get (cleanSignal r) i = interpolated signal i /\
   get (removedArtifacts r) i = get signal i - get (cleanSignal r) i).
Proof.
  intros Hi r. split; [apply removeArtifactsSimple_lengths|].
  pose proof (removeArtifactsSimple_written signal threshold i Hi) as H.
  cbn zeta in H. fold r in H. unfold written_at in H.
  cbn [st_clean st_removed st_indices] in H.
  split; intros Hflag; rewrite Hflag in H.
  - intros Hnan. destruct H as (-> & -> & _). now apply add_zero_eqb.
  - destruct H as (Hc & Hr & _). rewrite Hc. now split.
Qed.

Lemma simple_reconstruction_witness :
  let signal := [0.1; 1.2; 0.2] in
  let r := removeArtifactsSimple signal 1 in
  (length (cleanSignal r) = length signal /\
   length (removedArtifacts r) = length signal) /\
  ((get (cleanSignal r) 0 + get (removedArtifacts r) 0 =? get signal 0) = true) /\
  (get (cleanSignal r) 1 = interpolated signal 1 /\
   get (removedArtifacts r) 1 = get signal 1 - get (cleanSignal r) 1).
Proof.
  cbv zeta. split; [|split].
  - apply (simple_reconstruction [0.1; 1.2; 0.2] 1 0). cbn; lia.
  - apply (simple_reconstruction [0.1; 1.2; 0.2] 1 0); [cbn; lia | reflexivity | reflexivity].
  - apply (simple_reconstruction [0.1; 1.2; 0.2] 1 1); [cbn; lia | reflexivity].
Defined.

(** C1 as the spec words it fails: on [[0.1, 1.2, 0.2]] with threshold 1 the
    middle sample is flagged, [cleanSignal[1]] is 0.15000000000000002,
    [removedArtifacts[1]] is 1.0499999999999998, and their sum is
    1.1999999999999997, which is not [signal[1]]. *)
Lemma simple_reconstruction_not_exact :
  let signal := [0.1; 1.2; 0.2] in
  let r := removeArtifactsSimple signal 1 in
  (1 < length signal)%nat /\
  artifactIndices r = [1%nat] /\
  get (cleanSignal r) 1 = 0.15000000000000002 /\
  get (removedArtifacts r) 1 = 1.0499999999999998 /\
  (get (cleanSignal r) 1 + get (removedArtifacts r) 1 =? get signal 1) = false.
Proof.
  cbv zeta. split; [cbn; lia|]. repeat split; vm_compute; reflexivity.
Qed.

(** C10.  A sample whose z-score does not exceed the threshold is passed
    through: [cleanSignal[i]] is [signal[i]], [removedArtifacts[i]] is 0 and
    [i] is not among [artifactIndices]. *)
Theorem simple_unflagged_unchanged (signal : list number) (threshold : number) (i : nat) :
  (i < length signal)%nat ->
  gt (deviation signal i) threshold = false ->
  let r := removeArtifactsSimple signal threshold in
  get (cleanSignal r) i = get signal i /\
  get (removedArtifacts r) i = 0 /\
  ~ In i (artifactIndices r).
Proof.
  intros Hi Hflag r.
  pose proof (removeArtifactsSimple_written signal threshold i Hi) as H.
  cbn zeta in H. fold r in H. unfold written_at in H.
  rewrite Hflag in H. exact H.
Qed.

Lemma simple_unflagged_unchanged_witness :
  let signal := [1; 2; 100; 3; 2; 1; 2; 3; 2; 1; 2; 3] in
  let r := removeArtifactsSimple signal 3 in
  get (cleanSignal r) 3 = get signal 3 /\
  get (removedArtifacts r) 3 = 0 /\
  ~ In 3%nat (artifactIndices r).
Proof.
  cbv zeta.
  apply (simple_unflagged_unchanged [1; 2; 100; 3; 2; 1; 2; 3; 2; 1; 2; 3] 3 3);
    [cbn; lia | reflexivity].
Defined.

(** ** The synthesizer (signal-generator.ts) *)

Lemma mapi_length {A B : Type} (f : A -> nat -> B) (xs : list A) :
  length (mapi f xs) = length xs.
Proof.
  unfold mapi. rewrite length_map, length_combine, length_seq. lia.
Qed.

Lemma mapi_nth {A B : Type} (f : A -> nat -> B) (xs : list A) (i : nat) (da : A) (db : B) :
  (i < length xs)%nat -> nth i (mapi f xs) db = f (nth i xs da) i.
Proof.
  intros Hi. unfold mapi.
  rewrite (nth_indep _ db (f da O)) by (rewrite length_map, length_combine, length_seq; lia).
  change (f da O) with ((fun p => f (snd p) (fst p)) (O, da)).
  rewrite map_nth, combine_nth by (now rewrite length_seq).
  cbn [fst snd]. now rewrite seq_nth.
Qed.

Lemma add_into_length (result signal : list number) :
  (length signal <= length result)%nat ->
  length (add_into result signal) = length result.
Proof.
  revert signal. induction result as [|r rs IH]; intros [|s ss] H; cbn in *; try lia.
  rewrite IH; lia.
Qed.

Lemma fold_max_same (n : nat) (ls : list nat) (m : nat) :
  Forall (fun k => k = n) ls -> (m <= n)%nat -> ls <> [] ->
  fold_left Nat.max ls m = n.
Proof.
  intros Hall. revert m. induction Hall as [|k ls -> Hall IH]; intros m Hm Hne.
  - congruence.
  - cbn [fold_left]. destruct ls as [|k' ls'].
    + cbn. lia.
    + apply IH; [lia | discriminate].
Qed.

Lemma fold_add_into_length (signals : list (list number)) (acc : list number) (n : nat) :
  Forall (fun s => length s = n) signals -> length acc = n ->
  length (fold_left add_into signals acc) = n.
Proof.
  intros Hall. revert acc. induction Hall as [|s ss Hs Hall IH]; intros acc Hacc; cbn.
  - exact Hacc.
  - apply IH. rewrite add_into_length; lia.
Qed.

Lemma addSignals_length (signals : list (list number)) (n : nat) :
  Forall (fun s => length s = n) signals -> signals <> [] ->
  length (addSignals signals) = n.
Proof.
  intros Hall Hne. unfold addSignals.
  apply fold_add_into_length; [exact Hall|].
  rewrite repeat_length. apply fold_max_same; [| lia |].
  - clear Hne. induction Hall; cbn; constructor; auto.
  - destruct signals; [congruence | discriminate].
Qed.

Section GeneratorProperties.

Context {M : MathImpl}.

Variables (duration sampleRate : number) (samples : nat).
Hypothesis Hcount : for_count (Math_floor (duration * sampleRate)) = Some samples.

Lemma generateSineWave_returns (frequency amplitude phase : number) :
  exists wave,
    generateSineWave frequency amplitude duration sampleRate phase = Some wave /\
    length wave = samples.
Proof.
  unfold generateSineWave. rewrite Hcount. cbn [bind].
  eexists. split; [reflexivity|]. now rewrite length_map, length_seq.
Qed.

Ltac sine_wave w Hw Hl :=
  match goal with
  | |- context [generateSineWave ?f ?a duration sampleRate ?ph] =>
      destruct (generateSineWave_returns f a ph) as (w & Hw & Hl);
      rewrite Hw; cbn [bind]
  end.

Ltac sum_of_waves :=
  eexists; split; [reflexivity|];
  apply addSignals_length; [repeat constructor; assumption | discriminate].

Lemma generateAlphaWaves_returns :
  exists w, generateAlphaWaves duration sampleRate = Some w /\ length w = samples.
Proof.
  unfold generateAlphaWaves. sine_wave w1 H1 L1. sine_wave w2 H2 L2. sum_of_waves.
Qed.

Lemma generateBetaWaves_returns :
  exists w, generateBetaWaves duration sampleRate = Some w /\ length w = samples.
Proof.
  unfold generateBetaWaves.
  sine_wave w1 H1 L1. sine_wave w2 H2 L2. sine_wave w3 H3 L3. sum_of_waves.
Qed.

Lemma generateThetaWaves_returns :
  exists w, generateThetaWaves duration sampleRate = Some w /\ length w = samples.
Proof.
  unfold generateThetaWaves. sine_wave w1 H1 L1. sine_wave w2 H2 L2. sum_of_waves.
Qed.

Lemma generateDeltaWaves_returns :
  exists w, generateDeltaWaves duration sampleRate = Some w /\ length w = samples.
Proof.
  unfold generateDeltaWaves. sine_wave w1 H1 L1. sine_wave w2 H2 L2. sum_of_waves.
Qed.

Lemma generateGammaWaves_returns :
  exists w, generateGammaWaves duration sampleRate = Some w /\ length w = samples.
Proof.
  unfold generateGammaWaves. sine_wave w1 H1 L1. sine_wave w2 H2 L2. sum_of_waves.
Qed.

Ltac band_waves :=
  repeat match goal with
  | |- context [generateAlphaWaves duration sampleRate] =>
      let w := fresh "alpha" in let H := fresh in let L := fresh "Lalpha" in
      destruct generateAlphaWaves_returns as (w & H & L); rewrite H; cbn [bind]
  | |- context [generateBetaWaves duration sampleRate] =>
      let w := fresh "beta" in let H := fresh in let L := fresh in
      destruct generateBetaWaves_returns as (w & H & L); rewrite H; cbn [bind]
  | |- context [generateThetaWaves duration sampleRate] =>
      let w := fresh "theta" in let H := fresh in let L := fresh in
      destruct generateThetaWaves_returns as (w & H & L); rewrite H; cbn [bind]
  | |- context [generateDeltaWaves duration sampleRate] =>
      let w := fresh "delta" in let H := fresh in let L := fresh in
      destruct generateDeltaWaves_returns as (w & H & L); rewrite H; cbn [bind]
  | |- context [generateGammaWaves duration sampleRate] =>
      let w := fresh "gamma" in let H := fresh in let L := fresh in
      destruct generateGammaWaves_returns as (w & H & L); rewrite H; cbn [bind]
  | |- context [generatePowerLineNoise duration sampleRate ?f ?a] =>
      let w := fresh "power" in let H := fresh in let L := fresh in
      destruct (generateSineWave_returns f a 0) as (w & H & L);
      unfold generatePowerLineNoise; rewrite H; cbn [bind]
  end.

Lemma generateCustomSignal_returns (rnd : random_source) (params : CustomSignalParams) :
  exists s,
    generateCustomSignal rnd params duration sampleRate = Some s /\
    length (data s) = samples /\
    emotion s = customEmotion params.
Proof.
  unfold generateCustomSignal. band_waves.
  eexists. split; [reflexivity|]. cbn [data emotion].
  rewrite mapi_length. auto.
Qed.

Lemma generateHappySignal_returns (rnd : random_source) :
  exists s,
    generateHappySignal rnd duration sampleRate = Some s /\ length (data s) = samples.
Proof.
  unfold generateHappySignal. band_waves.
  eexists. split; [reflexivity|]. cbn [data]. now rewrite mapi_length.
Qed.

Lemma generateNeutralSignal_returns (rnd : random_source) :
  exists s,
    generateNeutralSignal rnd duration sampleRate = Some s /\ length (data s) = samples.
Proof.
  unfold generateNeutralSignal. band_waves.
  eexists. split; [reflexivity|]. cbn [data]. now rewrite mapi_length.
Qed.

Lemma generateSadSignal_returns (rnd : random_source) :
  exists s,
    generateSadSignal rnd duration sampleRate = Some s /\ length (data s) = samples.
Proof.
  unfold generateSadSignal. band_waves.
  eexists. split; [reflexivity|]. cbn [data]. now rewrite mapi_length.
Qed.

End GeneratorProperties.

Lemma generators_need_a_count {M : MathImpl} (rnd : random_source)
    (params : CustomSignalParams) (duration sampleRate : number) :
  for_count (Math_floor (duration * sampleRate)) = None ->
  generateCustomSignal rnd params duration sampleRate = None /\
  generateHappySignal rnd duration sampleRate = None /\
  generateNeutralSignal rnd duration sampleRate = None /\
  generateSadSignal rnd duration sampleRate = None.
Proof.
  intros Hcount.
  assert (Halpha : generateAlphaWaves duration sampleRate = None).
  { unfold generateAlphaWaves, generateSineWave. now rewrite Hcount. }
  unfold generateCustomSignal, generateHappySignal, generateNeutralSignal,
    generateSadSignal.
  rewrite Halpha. auto.
Qed.

(** C3, as the code has it.  Let [duration * sampleRate] be finite with
    floor [z].  When [z] is at most 2^32 - 1, the longest array, the custom
    generator and the three presets return, and the data array has exactly
    [floor(duration * sampleRate)] samples, none when that is negative: the
    count is [Math.floor], not a rounding to nearest.  When [z] is larger
    the sample loop's [push] throws and none of them returns a signal. *)
Theorem synthesized_length_is_floor {M : MathImpl} (rnd : random_source)
    (params : CustomSignalParams) (duration sampleRate : number) (z : Z) :
  Math_floor (duration * sampleRate) = FlInt z ->
  ((z <= 2 ^ 32 - 1)%Z ->
   (exists s, generateCustomSignal rnd params duration sampleRate = Some s /\
              length (data s) = Z.to_nat z) /\
   (exists s, generateHappySignal rnd duration sampleRate = Some s /\
              length (data s) = Z.to_nat z) /\
   (exists s, generateNeutralSignal rnd duration sampleRate = Some s /\
              length (data s) = Z.to_nat z) /\
   (exists s, generateSadSignal rnd duration sampleRate = Some s /\
              length (data s) = Z.to_nat z)) /\
  ((2 ^ 32 - 1 < z)%Z ->
   generateCustomSignal rnd params duration sampleRate = None /\
   generateHappySignal rnd duration sampleRate = None /\
   generateNeutralSignal rnd duration sampleRate = None /\
   generateSadSignal rnd duration sampleRate = None).
Proof.
  intros Hfloor. split; intros Hz.
  - assert (Hcount : for_count (Math_floor (duration * sampleRate))
                     = Some (Z.to_nat z)).
    { rewrite Hfloor. cbn [for_count]. unfold max_array_length.
      apply Z.leb_le in Hz. now rewrite Hz. }
    repeat split.
    + destruct (generateCustomSignal_returns _ _ _ Hcount rnd params)
        as (s & Hs & Hl & _).
      now exists s.
    + apply (generateHappySignal_returns _ _ _ Hcount).
    + apply (generateNeutralSignal_returns _ _ _ Hcount).
    + apply (generateSadSignal_returns _ _ _ Hcount).
  - apply generators_need_a_count.
    rewrite Hfloor. cbn [for_count]. unfold max_array_length.
    apply Z.leb_gt in Hz. now rewrite Hz.
Qed.

Lemma synthesized_length_is_floor_witness :
  ((exists s, generateCustomSignal (M := Series.math) demo_random demo_params 0.5 125 = Some s /\
              length (data s) = 62%nat) /\
   (exists s, generateHappySignal (M := Series.math) demo_random 0.5 125 = Some s /\
              length (data s) = 62%nat) /\
   (exists s, generateNeutralSignal (M := Series.math) demo_random 0.5 125 = Some s /\
              length (data s) = 62%nat) /\
   (exists s, generateSadSignal (M := Series.math) demo_random 0.5 125 = Some s /\
              length (data s) = 62%nat)) /\
  (generateCustomSignal (M := Series.math) demo_random demo_params 16777216 256 = None /\
   generateHappySignal (M := Series.math) demo_random 16777216 256 = None /\
   generateNeutralSignal (M := Series.math) demo_random 16777216 256 = None /\
   generateSadSignal (M := Series.math) demo_random 16777216 256 = None).
Proof.
  split.
  - apply (synthesized_length_is_floor (M := Series.math) demo_random demo_params
             0.5 125 62).
    + vm_compute. reflexivity.
    + vm_compute. discriminate.
  - apply (synthesized_length_is_floor (M := Series.math) demo_random demo_params
             16777216 256 (2 ^ 32)).
    + vm_compute. reflexivity.
    + vm_compute. reflexivity.
Defined.

(** C3 as the spec words it fails: half a second at 125 Hz is 62.5 samples;
    the spec's [round] gives 63, the generator returns 62. *)
Lemma synthesized_length_not_round :
  exists s,
    generateCustomSignal (M := Series.math) demo_random demo_params 0.5 125 = Some s /\
    length (data s) = 62%nat /\
    spec_rounded_length 0.5 125 = Some 63%nat /\
    Some (length (data s)) <> spec_rounded_length 0.5 125.
Proof.
  destruct (generateCustomSignal_returns (M := Series.math) 0.5 125 62
              ltac:(vm_compute; reflexivity) demo_random demo_params)
    as (s & Hs & Hl & _).
  exists s. split; [exact Hs|]. split; [exact Hl|].
  split; [vm_compute; reflexivity|].
  rewrite Hl. vm_compute. discriminate.
Qed.

(** C9.  A custom synthesis call that returns labels its signal happy exactly
    when alpha > 0.8 and gamma > 0.2, otherwise sad exactly when theta > 0.8
    or delta > 0.6, otherwise neutral; and it returns whenever the sample
    count is defined. *)
Theorem custom_emotion_label {M : MathImpl} (rnd : random_source)
    (params : CustomSignalParams) (duration sampleRate : number) (samples : nat) :
  for_count (Math_floor (duration * sampleRate)) = Some samples ->
  let is_happy := gt (p_alpha params) 0.8 = true /\ gt (p_gamma params) 0.2 = true in
  let is_sad := gt (p_theta params) 0.8 = true \/ gt (p_delta params) 0.6 = true in
  exists s,
    generateCustomSignal rnd params duration sampleRate = Some s /\
    (emotion s = happy <-> is_happy) /\
    (emotion s = sad <-> ~ is_happy /\ is_sad) /\
    (emotion s = neutral <-> ~ is_happy /\ ~ is_sad).
Proof.
  intros Hcount is_happy is_sad.
  destruct (generateCustomSignal_returns _ _ _ Hcount rnd params) as (s & Hs & _ & He).
  exists s. split; [exact Hs|]. rewrite He. subst is_happy is_sad.
  unfold customEmotion.
  destruct (gt (p_alpha params) 0.8), (gt (p_gamma params) 0.2),
    (gt (p_theta params) 0.8), (gt (p_delta params) 0.6); cbn;
    intuition congruence.
Qed.

Lemma custom_emotion_label_witness :
  exists s,
    generateCustomSignal (M := Series.math) demo_random demo_params 0.5 125 = Some s /\
    (emotion s = happy <->
       gt (p_alpha demo_params) 0.8 = true /\ gt (p_gamma demo_params) 0.2 = true) /\
    (emotion s = sad <->
       ~ (gt (p_alpha demo_params) 0.8 = true /\ gt (p_gamma demo_params) 0.2 = true) /\
       (gt (p_theta demo_params) 0.8 = true \/ gt (p_delta demo_params) 0.6 = true)) /\
    (emotion s = neutral <->
       ~ (gt (p_alpha demo_params) 0.8 = true /\ gt (p_gamma demo_params) 0.2 = true) /\
       ~ (gt (p_theta demo_params) 0.8 = true \/ gt (p_delta demo_params) 0.6 = true)).
Proof.
  apply (custom_emotion_label (M := Series.math) demo_random demo_params 0.5 125 62).
  vm_compute. reflexivity.
Defined.

(** ** The filter bank (signal-processing.ts) *)

Lemma array_set_length (a : list number) (i : nat) (v : number) :
  (i < length a)%nat -> length (array_set a i v) = length a.
Proof.
  revert i. induction a as [|x a IH]; intros [|i] H; cbn in *; try lia.
  rewrite IH; lia.
Qed.

Lemma array_set_get_same (a : list number) (i : nat) (v : number) :
  get (array_set a i v) i = v.
Proof.
  unfold get. revert a. induction i as [|i IH]; intros [|x a]; cbn;
    try reflexivity; apply IH.
Qed.

Lemma array_set_get_other (a : list number) (i j : nat) (v : number) :
  i <> j -> get (array_set a i v) j = get a j.
Proof.
  unfold get. revert a j.
  induction i as [|i IH]; intros [|x a] [|j] H; cbn; try reflexivity;
    try congruence.
  - now destruct j.
  - rewrite (IH [] j) by congruence. now destruct j.
  - apply (IH a j). congruence.
Qed.

(** The feedback sum at index [i] reads the output strictly before [i]. *)
Lemma feed_back_ext (o1 o2 a : list number) (i : nat) (s : number) :
  (forall m, (m < i)%nat -> get o1 m = get o2 m) ->
  feed_back o1 a i s = feed_back o2 a i s.
Proof.
  intros Hext. unfold feed_back.
  assert (Hjs : Forall (fun j => 1 <= j)%nat (seq 1 (length a - 1))).
  { apply Forall_forall. intros j Hj. apply in_seq in Hj. lia. }
  revert s. induction Hjs as [|j js Hj _ IH]; intros s; cbn [fold_left].
  - reflexivity.
  - destruct (j <=? i)%nat eqn:Hji.
    + apply Nat.leb_le in Hji. rewrite (Hext (i - j)%nat) by lia. apply IH.
    + apply IH.
Qed.

Lemma applyIIRFilter_invariant (signal b a : list number) (k : nat) :
  (k <= length signal)%nat ->
  let output :=
    for_loop k
      (fun output i => array_set output i (feed_back output a i (feed_forward signal b i)))
      (repeat 0 (length signal)) in
  length output = length signal /\
  forall i, (i < k)%nat ->
    get output i = feed_back output a i (feed_forward signal b i).
Proof.
  induction k as [|k IH]; intros Hk; cbn zeta.
  - split; [apply repeat_length | intros; lia].
  - rewrite for_loop_S.
    destruct (IH ltac:(lia)) as (Hlen & Hrec). cbn zeta in Hlen, Hrec.
    set (out := for_loop k _ _) in *.
    split; [rewrite array_set_length; lia|].
    intros i Hi. destruct (Nat.eq_dec i k) as [->|Hne].
    + rewrite array_set_get_same. apply feed_back_ext.
      intros m Hm. rewrite array_set_get_other by lia. reflexivity.
    + rewrite array_set_get_other by lia. rewrite Hrec by lia.
      apply feed_back_ext. intros m Hm. rewrite array_set_get_other by lia. reflexivity.
Qed.

Lemma applyIIRFilter_length (signal b a : list number) :
  length (applyIIRFilter signal b a) = length signal.
Proof.
  apply (applyIIRFilter_invariant signal b a (length signal)). lia.
Qed.

(** The direct-form recurrence:
    [y[i] = sum_j b[j] x[i-j] - sum_(j>=1) a[j] y[i-j]]. *)
Lemma applyIIRFilter_recurrence (signal b a : list number) (i : nat) :
  (i < length signal)%nat ->
  let output := applyIIRFilter signal b a in
  get output i = feed_back output a i (feed_forward signal b i).
Proof.
  intros Hi. cbn zeta.
  now apply (applyIIRFilter_invariant signal b a (length signal)).
Qed.

Lemma filtfilt_length (signal b a : list number) :
  length (filtfilt signal b a) = length signal.
Proof.
  unfold filtfilt. now rewrite length_rev, applyIIRFilter_length, length_rev, applyIIRFilter_length.
Qed.

Lemma lowPassFilter_length {M : MathImpl} (signal : list number) (cutoffFreq sampleRate : number) :
  length (lowPassFilter signal cutoffFreq sampleRate) = length signal.
Proof. apply filtfilt_length. Qed.

(** C8.  [highPassFilter] is the sample-wise difference of the signal and
    its low-pass filtered version, which has a sample for every index, and
    [bandPassFilter] is the low-pass at the high cutoff of the high-pass at
    the low cutoff. *)
Theorem highpass_complement_bandpass_composition {M : MathImpl}
    (signal : list number) (cutoffFreq lowFreq highFreq sampleRate : number) (i : nat) :
  (i < length signal)%nat ->
  (i < length (lowPassFilter signal cutoffFreq sampleRate))%nat /\
  get (highPassFilter signal cutoffFreq sampleRate) i
    = get signal i - get (lowPassFilter signal cutoffFreq sampleRate) i /\
  length (highPassFilter signal cutoffFreq sampleRate) = length signal /\
  bandPassFilter signal lowFreq highFreq sampleRate
    = lowPassFilter (highPassFilter signal lowFreq sampleRate) highFreq sampleRate.
Proof.
  intros Hi. split; [now rewrite lowPassFilter_length|].
  split; [|split].
  - unfold highPassFilter, get at 1. now rewrite (mapi_nth _ _ _ nan).
  - unfold highPassFilter. apply mapi_length.
  - reflexivity.
Qed.

Lemma highpass_complement_bandpass_composition_witness :
  let signal := [1; 2; 4; 2; 1; 0; 1; 3] in
  (2 < length (lowPassFilter (M := Series.math) signal 30%float 256%float))%nat /\
  get (highPassFilter (M := Series.math) signal 30 256) 2
    = get signal 2 - get (lowPassFilter (M := Series.math) signal 30 256) 2 /\
  length (highPassFilter (M := Series.math) signal 30 256) = length signal /\
  bandPassFilter (M := Series.math) signal 0.5 45 256
    = lowPassFilter (M := Series.math) (highPassFilter (M := Series.math) signal 0.5 256) 45 256.
Proof.
  cbv zeta.
  apply (highpass_complement_bandpass_composition (M := Series.math)
           [1; 2; 4; 2; 1; 0; 1; 3] 30 0.5 45 256 2).
  cbn. lia.
Defined.

(** C5, as the code has it.  No filter tests its coefficients: for every
    request [lowPassFilter] is the forward-backward pass with the Butterworth
    coefficients, each pass obeying the direct-form recurrence sample by
    sample, and the result has the input's length; [notchFilter] is the same
    pass with the notch coefficients.  Nothing is passed through and no
    condition is signalled. *)
Theorem lowpass_applies_coefficients_unconditionally {M : MathImpl}
    (signal : list number) (cutoffFreq sampleRate : number) (i : nat) :
  (i < length signal)%nat ->
  let c := butterworthCoeffs cutoffFreq sampleRate 2 in
  let forward := applyIIRFilter signal (coeff_b c) (coeff_a c) in
  let backward := applyIIRFilter (rev forward) (coeff_b c) (coeff_a c) in
  lowPassFilter signal cutoffFreq sampleRate = rev backward /\
  length (lowPassFilter signal cutoffFreq sampleRate) = length signal /\
  get forward i = feed_back forward (coeff_a c) i (feed_forward signal (coeff_b c) i) /\
  get backward i
    = feed_back backward (coeff_a c) i (feed_forward (rev forward) (coeff_b c) i) /\
  (forall notchFreq bandwidth : number,
     let nc := notchCoeffs notchFreq sampleRate bandwidth in
     notchFilter signal notchFreq sampleRate bandwidth
     = filtfilt signal (coeff_b nc) (coeff_a nc) /\
     length (notchFilter signal notchFreq sampleRate bandwidth) = length signal).
Proof.
  intros Hi c forward backward. split; [reflexivity|].
  split; [apply lowPassFilter_length|]. split; [|split].
  - now apply applyIIRFilter_recurrence.
  - apply applyIIRFilter_recurrence.
    subst forward. now rewrite length_rev, applyIIRFilter_length.
  - intros notchFreq bandwidth nc. split; [reflexivity | apply filtfilt_length].
Qed.

Lemma lowpass_applies_coefficients_unconditionally_witness :
  let signal := [1; 0; 0; 0] in
  let c := butterworthCoeffs (M := Series.math) 192 256 2 in
  let forward := applyIIRFilter signal (coeff_b c) (coeff_a c) in
  let backward := applyIIRFilter (rev forward) (coeff_b c) (coeff_a c) in
  lowPassFilter (M := Series.math) signal 192 256 = rev backward /\
  length (lowPassFilter (M := Series.math) signal 192 256) = length signal /\
  get forward 2 = feed_back forward (coeff_a c) 2 (feed_forward signal (coeff_b c) 2) /\
  get backward 2
    = feed_back backward (coeff_a c) 2 (feed_forward (rev forward) (coeff_b c) 2) /\
  (forall notchFreq bandwidth : number,
     let nc := notchCoeffs (M := Series.math) notchFreq 256 bandwidth in
     notchFilter (M := Series.math) signal notchFreq 256 bandwidth
     = filtfilt signal (coeff_b nc) (coeff_a nc) /\
     length (notchFilter (M := Series.math) signal notchFreq 256 bandwidth) = length signal).
Proof.
  cbv zeta.
  apply (lowpass_applies_coefficients_unconditionally (M := Series.math) [1; 0; 0; 0] 192 256 2).
  cbn. lia.
Defined.

(** C5 as the spec words it fails: a 192 Hz cutoff at a 256 Hz sample rate is
    above the Nyquist frequency; the denominator is about
    [[1, 0, 5.83]], with poles of modulus 2.41, and the unit impulse comes
    back as [[478.5, 141.7, -82.0, -34.0]], not unchanged.  And whatever the
    implementation of [Math.tan], a cutoff of 0 Hz gives the denominator
    [[1, -2, 1]], a double pole on the unit circle, and the impulse comes
    back as zeros. *)
Lemma unstable_lowpass_not_passed_through :
  let signal := [1; 0; 0; 0] in
  let c := butterworthCoeffs (M := Series.math) 192 256 2 in
  poles_inside_unit_circle (coeff_a c) = false /\
  gt (get (coeff_a c) 2) 5.8 = true /\
  gt (get (lowPassFilter (M := Series.math) signal 192 256) 0) 478 = true /\
  lowPassFilter (M := Series.math) signal 192 256 <> signal /\
  (forall M : MathImpl,
     coeff_a (butterworthCoeffs (M := M) 0 256 2) = [1; -2; 1] /\
     poles_inside_unit_circle (coeff_a (butterworthCoeffs (M := M) 0 256 2)) = false /\
     lowPassFilter (M := M) signal 0 256 = [0; 0; 0; 0]).
Proof.
  cbv zeta. split; [|split; [|split; [|split]]]; try (vm_compute; reflexivity).
  - intros H. apply (f_equal (fun l => gt (get l 0) 478)) in H.
    vm_compute in H. discriminate H.
  - intros M. repeat split; vm_compute; reflexivity.
Qed.

(** ** The spectral analyzer (signal-processing.ts) *)

Lemma fold_left_over_map {A B C : Type} (f : A -> C -> A) (h : B -> C) (l : list B) (init : A) :
  fold_left (fun acc x => f acc (h x)) l init = fold_left f (map h l) init.
Proof.
  revert init. induction l as [|x l IH]; intros init; cbn; [reflexivity | apply IH].
Qed.

Lemma indexed_pairs (fs ms : list number) :
  length fs = length ms ->
  map (fun i => (get fs i, get ms i)) (seq 0 (length fs)) = combine fs ms.
Proof.
  intros Hlen. set (h := fun i => (get fs i, get ms i)).
  apply (nth_ext _ _ (h O) (nan, nan)).
  - rewrite length_map, length_seq, length_combine. lia.
  - intros k Hk. rewrite length_map, length_seq in Hk.
    rewrite map_nth, seq_nth by lia. cbn [Nat.add]. subst h. cbn beta.
    unfold get. now rewrite combine_nth.
Qed.

(** The loop of [calculateBandPowers] runs over the bins in order. *)
Lemma band_loop_as_fold (fs ms : list number) (init : band_acc) :
  length fs = length ms ->
  for_loop (length fs) (fun acc i => band_step acc (get fs i) (get ms i)) init
  = fold_left (fun acc bin => band_step acc (fst bin) (snd bin)) (combine fs ms) init.
Proof.
  intros Hlen. unfold for_loop.
  rewrite <- (indexed_pairs fs ms Hlen).
  rewrite <- (fold_left_over_map
                (fun acc bin => band_step acc (fst bin) (snd bin))
                (fun i => (get fs i, get ms i))).
  reflexivity.
Qed.

(** The five tests of [band_step] exclude one another. *)
Lemma bands_exclusive (f : number) :
  let d := in_band 0.5 4 false f in
  let t := in_band 4 8 false f in
  let a := in_band 8 13 false f in
  let b := in_band 13 30 false f in
  let g := in_band 30 45 true f in
  (d = true -> t = false /\ a = false /\ b = false /\ g = false) /\
  (t = true -> a = false /\ b = false /\ g = false) /\
  (a = true -> b = false /\ g = false) /\
  (b = true -> g = false).
Proof.
  cbn zeta. unfold in_band.
  assert (Hex : forall lo hi lo' rest,
             (hi <=? lo') = true ->
             ge f lo && (f <? hi) = true -> ge f lo' && rest = false).
  { intros lo hi lo' rest Hle H. apply andb_prop in H. destruct H as (_ & Hlt).
    destruct (ge f lo') eqn:Hge; [|reflexivity].
    rewrite (above_not_below hi lo' f Hle Hge) in Hlt. discriminate. }
  split; [|split; [|split]]; intros Hin;
    repeat match goal with |- _ /\ _ => split end;
    (eapply Hex; [|exact Hin]); reflexivity.
Qed.

Lemma powers_in_cons (lo hi : number) (incl : bool) (f m : number)
    (bins : list (number * number)) :
  powers_in lo hi incl ((f, m) :: bins)
  = if in_band lo hi incl f then m * m :: powers_in lo hi incl bins
    else powers_in lo hi incl bins.
Proof.
  unfold powers_in. cbn [filter fst]. now destruct (in_band lo hi incl f).
Qed.

Lemma band_step_by_band (acc : band_acc) (f m : number) :
  band_step acc f m =
  let power := m * m in
  let '(mkBandAcc d t a b g dc tc ac bc gc) := acc in
  if in_band 0.5 4 false f then mkBandAcc (d + power) t a b g (S dc) tc ac bc gc
  else if in_band 4 8 false f then mkBandAcc d (t + power) a b g dc (S tc) ac bc gc
  else if in_band 8 13 false f then mkBandAcc d t (a + power) b g dc tc (S ac) bc gc
  else if in_band 13 30 false f then mkBandAcc d t a (b + power) g dc tc ac (S bc) gc
  else if in_band 30 45 true f then mkBandAcc d t a b (g + power) dc tc ac bc (S gc)
  else acc.
Proof. reflexivity. Qed.

(** Each accumulator ends as the running sum of its band's powers, each
    counter as the number of its band's bins. *)
Lemma band_fold_spec (bins : list (number * number)) (acc : band_acc) :
  let acc' := fold_left (fun acc bin => band_step acc (fst bin) (snd bin)) bins acc in
  (acc_delta acc' = fold_left add (powers_in 0.5 4 false bins) (acc_delta acc) /\
   deltaCount acc' = Nat.add (deltaCount acc) (length (powers_in 0.5 4 false bins))) /\
  (acc_theta acc' = fold_left add (powers_in 4 8 false bins) (acc_theta acc) /\
   thetaCount acc' = Nat.add (thetaCount acc) (length (powers_in 4 8 false bins))) /\
  (acc_alpha acc' = fold_left add (powers_in 8 13 false bins) (acc_alpha acc) /\
   alphaCount acc' = Nat.add (alphaCount acc) (length (powers_in 8 13 false bins))) /\
  (acc_beta acc' = fold_left add (powers_in 13 30 false bins) (acc_beta acc) /\
   betaCount acc' = Nat.add (betaCount acc) (length (powers_in 13 30 false bins))) /\
  (acc_gamma acc' = fold_left add (powers_in 30 45 true bins) (acc_gamma acc) /\
   gammaCount acc' = Nat.add (gammaCount acc) (length (powers_in 30 45 true bins))).
Proof.
  revert acc. induction bins as [|[f m] bins IH]; intros acc; cbn zeta.
  - cbn. repeat split; lia.
  - cbn [fold_left fst snd]. specialize (IH (band_step acc f m)). cbn zeta in IH.
    rewrite !powers_in_cons.
    rewrite band_step_by_band in IH. cbn zeta in IH.
    destruct acc as [d t a b g dc tc ac bc gc].
    rewrite band_step_by_band. cbn zeta.
    pose proof (bands_exclusive f) as (Hd & Ht & Ha & Hb). 
    destruct (in_band 0.5 4 false f) eqn:Ed.
    { destruct (Hd eq_refl) as (-> & -> & -> & ->).
      cbn [acc_delta acc_theta acc_alpha acc_beta acc_gamma
           deltaCount thetaCount alphaCount betaCount gammaCount fold_left length] in *.
      repeat split; try apply IH; destruct IH as ((? & ?) & _); lia. }
    destruct (in_band 4 8 false f) eqn:Et.
    { destruct (Ht eq_refl) as (-> & -> & ->).
      cbn [acc_delta acc_theta acc_alpha acc_beta acc_gamma
           deltaCount thetaCount alphaCount betaCount gammaCount fold_left length] in *.
      repeat split; try apply IH; destruct IH as (_ & (? & ?) & _); lia. }
    destruct (in_band 8 13 false f) eqn:Ea.
    { destruct (Ha eq_refl) as (-> & ->).
      cbn [acc_delta acc_theta acc_alpha acc_beta acc_gamma
           deltaCount thetaCount alphaCount betaCount gammaCount fold_left length] in *.
      repeat split; try apply IH; destruct IH as (_ & _ & (? & ?) & _); lia. }
    destruct (in_band 13 30 false f) eqn:Eb.
    { rewrite (Hb eq_refl).
      cbn [acc_delta acc_theta acc_alpha acc_beta acc_gamma
           deltaCount thetaCount alphaCount betaCount gammaCount fold_left length] in *.
      repeat split; try apply IH; destruct IH as (_ & _ & _ & (? & ?) & _); lia. }
    destruct (in_band 30 45 true f) eqn:Eg.
    { cbn [acc_delta acc_theta acc_alpha acc_beta acc_gamma
           deltaCount thetaCount alphaCount betaCount gammaCount fold_left length] in *.
      repeat split; try apply IH; destruct IH as (_ & _ & _ & _ & (? & ?)); lia. }
    cbn [acc_delta acc_theta acc_alpha acc_beta acc_gamma
         deltaCount thetaCount alphaCount betaCount gammaCount] in *.
    exact IH.
Qed.

Lemma get_map_seq (f : nat -> number) (m k : nat) :
  (k < m)%nat -> get (map f (seq 0 m)) k = f k.
Proof.
  intros Hk. unfold get.
  rewrite (nth_indep _ nan (f O)) by (rewrite length_map, length_seq; lia).
  rewrite map_nth, seq_nth by lia. reflexivity.
Qed.

Lemma computeFFT_lengths {M : MathImpl} (signal : list number) (sampleRate : number) :
  length (fst (computeFFT signal sampleRate)) = (length signal / 2)%nat /\
  length (snd (computeFFT signal sampleRate)) = (length signal / 2)%nat.
Proof.
  unfold computeFFT. cbn [fst snd]. now rewrite !length_map, !length_seq.
Qed.

Lemma band_average_is_mean (bins : list (number * number)) (lo hi : number) (incl : bool) :
  band_average (fold_left add (powers_in lo hi incl bins) 0)
               (0 + length (powers_in lo hi incl bins))
  = (let powers := powers_in lo hi incl bins in
     if (0 <? length powers)%nat then sum powers / of_nat (length powers) else 0).
Proof. reflexivity. Qed.

(** The loop of [computeFFT] over a bin carries the two sums of the spec's
    DFT side by side. *)
Lemma dft_sums_are_the_dft {M : MathImpl} (signal : list number) (k : nat) :
  dft_sums signal k = (spec_dft_real signal k, spec_dft_imag signal k).
Proof.
  unfold dft_sums, spec_dft_real, spec_dft_imag, for_loop. cbv zeta.
  match goal with
  | |- fold_left ?f ?l (0, 0) = (fold_left ?g ?l 0, fold_left ?h ?l 0) =>
      assert (G : forall ts re im,
                fold_left f ts (re, im) = (fold_left g ts re, fold_left h ts im))
  end.
  { induction ts as [|t ts IH]; intros re im; [reflexivity|].
    cbn [fold_left fst snd]. apply IH. }
  apply G.
Qed.

(** C6.  [computeFFT] returns the first [floor(n/2)] bins, bin [k] at
    frequency [k * sampleRate / n] with the magnitude of the direct DFT of
    the signal at [k], [sqrt(re^2 + im^2) / n] where [re] and [im] are the
    cosine and sine sums over the samples; and each band power of
    [calculateBandPowers] is the mean of the squares of those magnitudes
    over the bins whose frequency is in [[lowHz, highHz)] (45 Hz included
    for gamma), 0 for a band without bins.  This holds for every signal, the
    empty one included. *)
Theorem band_powers_are_band_means {M : MathImpl} (signal : list number)
    (sampleRate : number) :
  let n := length signal in
  let frequencies := spec_frequencies n sampleRate in
  let magnitudes := spec_magnitudes signal in
  computeFFT signal sampleRate = (frequencies, magnitudes) /\
  (length frequencies = (n / 2)%nat /\ length magnitudes = (n / 2)%nat) /\
  (forall k, (k < n / 2)%nat ->
     get frequencies k = of_nat k * sampleRate / of_nat n /\
     get magnitudes k
     = Math_sqrt (spec_dft_real signal k * spec_dft_real signal k
                  + spec_dft_imag signal k * spec_dft_imag signal k)
       / of_nat n) /\
  calculateBandPowers signal sampleRate
  = mkBandPowers
      (mean_square_in_band 0.5 4 false frequencies magnitudes)
      (mean_square_in_band 4 8 false frequencies magnitudes)
      (mean_square_in_band 8 13 false frequencies magnitudes)
      (mean_square_in_band 13 30 false frequencies magnitudes)
      (mean_square_in_band 30 45 true frequencies magnitudes).
Proof.
  intros n frequencies magnitudes.
  assert (Hfft : computeFFT signal sampleRate = (frequencies, magnitudes)).
  { unfold computeFFT. cbv zeta. fold n. f_equal.
    apply map_ext. intros k. unfold bin_magnitude, spec_dft_magnitude.
    now rewrite dft_sums_are_the_dft. }
  assert (Hf : length frequencies = (n / 2)%nat).
  { subst frequencies. unfold spec_frequencies. now rewrite length_map, length_seq. }
  assert (Hm : length magnitudes = (n / 2)%nat).
  { subst magnitudes. unfold spec_magnitudes. now rewrite length_map, length_seq. }
  split; [exact Hfft|]. split; [now split|]. split.
  - intros k Hk. subst frequencies magnitudes.
    unfold spec_frequencies, spec_magnitudes. fold n.
    rewrite !get_map_seq by assumption. split; reflexivity.
  - unfold calculateBandPowers. rewrite Hfft.
    rewrite band_loop_as_fold by congruence.
    pose proof (band_fold_spec (combine frequencies magnitudes)
                  (mkBandAcc 0 0 0 0 0 O O O O O)) as H.
    cbn zeta in H.
    cbn [acc_delta acc_theta acc_alpha acc_beta acc_gamma
         deltaCount thetaCount alphaCount betaCount gammaCount] in H.
    destruct H as ((-> & ->) & (-> & ->) & (-> & ->) & (-> & ->) & (-> & ->)).
    rewrite !band_average_is_mean. reflexivity.
Qed.

Lemma band_powers_are_band_means_witness :
  let signal := [1; 2; 4; 2; 1; 0; 1; 3] in
  let frequencies := spec_frequencies 8 32 in
  let magnitudes := spec_magnitudes (M := Series.math) signal in
  computeFFT (M := Series.math) signal 32 = (frequencies, magnitudes) /\
  frequencies = [0; 4; 8; 12] /\
  calculateBandPowers (M := Series.math) signal 32
  = mkBandPowers
      (mean_square_in_band 0.5 4 false frequencies magnitudes)
      (mean_square_in_band 4 8 false frequencies magnitudes)
      (mean_square_in_band 8 13 false frequencies magnitudes)
      (mean_square_in_band 13 30 false frequencies magnitudes)
      (mean_square_in_band 30 45 true frequencies magnitudes).
Proof.
  cbv zeta.
  destruct (band_powers_are_band_means (M := Series.math) [1; 2; 4; 2; 1; 0; 1; 3] 32)
    as (Hfft & _ & _ & Hbands).
  split; [exact Hfft|]. split; [vm_compute; reflexivity | exact Hbands].
Defined.

(** ** The rule-based classifier (emotion-classifier.ts) *)

(** C7 fails where the band powers vanish.  Whenever the five band powers
    of the signal are zero, [ruleBasedClassification] divides them by their
    zero total: the three probabilities and the confidence are NaN, so none of
    them is non-negative or at most 1, and the label stays at its initial
    value. *)
Theorem rule_based_nan_without_band_power {M : MathImpl} (signal : list number)
    (sampleRate : number) :
  calculateBandPowers signal sampleRate = mkBandPowers 0 0 0 0 0 ->
  let r := ruleBasedClassification signal sampleRate in
  r = mkEmotionPrediction neutral nan (mkProbabilities nan nan nan) /\
  ge (prob_happy (probabilities r)) 0 = false /\
  ge (prob_neutral (probabilities r)) 0 = false /\
  ge (prob_sad (probabilities r)) 0 = false /\
  ge (confidence r) 0 = false /\
  (confidence r <=? 1) = false /\
  (prob_happy (probabilities r) + prob_neutral (probabilities r)
   + prob_sad (probabilities r) =? 1) = false.
Proof.
  intros H r.
  assert (Hr : r = mkEmotionPrediction neutral nan (mkProbabilities nan nan nan)).
  { subst r. unfold ruleBasedClassification. rewrite H. vm_compute. reflexivity. }
  rewrite Hr. repeat split.
Qed.

Lemma rule_based_nan_without_band_power_witness :
  let r := ruleBasedClassification (M := Series.math) [1; 2; 3; 4] 256 in
  r = mkEmotionPrediction neutral nan (mkProbabilities nan nan nan) /\
  ge (prob_happy (probabilities r)) 0 = false /\
  ge (prob_neutral (probabilities r)) 0 = false /\
  ge (prob_sad (probabilities r)) 0 = false /\
  ge (confidence r) 0 = false /\
  (confidence r <=? 1) = false /\
  (prob_happy (probabilities r) + prob_neutral (probabilities r)
   + prob_sad (probabilities r) =? 1) = false.
Proof.
  cbv zeta.
  apply (rule_based_nan_without_band_power (M := Series.math) [1; 2; 3; 4] 256).
  vm_compute. reflexivity.
Defined.

(** C2 fails in the classifier.  On an all-zero signal [calculateBandPowers]
    does return five zeros, but [predictEmotion] without a fitted model
    returns NaN for the three probabilities and for the confidence, not 1/3:
    for every implementation of the [Math] functions on three zero samples,
    and on a second of zeros at 256 Hz. *)
Theorem all_zero_signal_prediction_is_nan :
  (forall M : MathImpl,
     calculateBandPowers (M := M) [0; 0; 0] 256 = mkBandPowers 0 0 0 0 0 /\
     predictEmotion (M := M) None [0; 0; 0] 256
     = Some (mkEmotionPrediction neutral nan (mkProbabilities nan nan nan))) /\
  calculateBandPowers (M := Series.math) (repeat 0 256) 256 = mkBandPowers 0 0 0 0 0 /\
  predictEmotion (M := Series.math) None (repeat 0 256) 256
  = Some (mkEmotionPrediction neutral nan (mkProbabilities nan nan nan)).
Proof.
  split; [|split].
  - intros M. split; vm_compute; reflexivity.
  - vm_compute. reflexivity.
  - vm_compute. reflexivity.
Qed.

(** ** The ICA strategy (ica-processing.ts) *)

Lemma mmul_length (a b : matrix) : length (mmul a b) = length a.
Proof. unfold mmul. apply length_map. Qed.

Lemma set_row_length (W : matrix) (c : nat) (w : list number) :
  length (set_row W c w) = length W.
Proof.
  revert c. induction W as [|row W IH]; intros [|c]; cbn; try reflexivity.
  now rewrite IH.
Qed.

Lemma row_updates_keep_length (f : matrix -> nat -> list number) (W0 : matrix) (n : nat) :
  length (for_loop n (fun W c => set_row W c (f W c)) W0) = length W0.
Proof.
  induction n as [|c IH].
  - reflexivity.
  - rewrite for_loop_S, set_row_length. exact IH.
Qed.

Lemma fastICA_length {M : MathImpl} (W0 whitened : matrix) (numChannels : nat) :
  length (fastICA W0 whitened numChannels) = length W0.
Proof.
  unfold fastICA.
  apply (row_updates_keep_length
           (fun W c => iterate_component maxIter W whitened c numChannels (nth c W []))).
Qed.

Lemma initial_unmixing_length (rnd : random_source) (numChannels : nat) :
  length (initial_unmixing rnd numChannels) = numChannels.
Proof. unfold initial_unmixing. now rewrite length_map, length_seq. Qed.

Lemma delayed_signals_length (signal : list number) (numComponents : nat) :
  length (delayed_signals signal numComponents) = Nat.min numComponents 4.
Proof.
  unfold delayed_signals. rewrite length_map, length_firstn. reflexivity.
Qed.

Lemma centerData_length (data centered : matrix) (means : list number) :
  centerData data = Some (centered, means) -> length centered = length data.
Proof.
  unfold centerData. destruct (row0_length data); cbn [bind]; [|discriminate].
  intros H. inversion H. apply length_map.
Qed.

Lemma centerData_returns (data : matrix) :
  data <> [] -> exists centered means, centerData data = Some (centered, means).
Proof.
  intros H. unfold centerData. destruct data as [|row data]; [congruence|].
  cbn [row0_length bind]. eauto.
Qed.

Lemma whitenData_length {L : MatrixLib} (data whitened whiteningMatrix : matrix) :
  whitenData data = Some (whitened, whiteningMatrix) ->
  length whitened = length data /\ length whiteningMatrix = length data.
Proof.
  unfold whitenData. destruct (row0_length data); cbn [bind]; [|discriminate].
  destruct (EVD _) as [eigenvalues eigenvectors].
  intros H. inversion H.
  rewrite !mmul_length. unfold scaling_matrix. now rewrite length_map, length_seq.
Qed.

Lemma whitenData_returns {L : MatrixLib} (data : matrix) :
  data <> [] -> exists whitened whiteningMatrix,
    whitenData data = Some (whitened, whiteningMatrix).
Proof.
  intros H. unfold whitenData. destruct data as [|row data]; [congruence|].
  cbn [row0_length bind]. destruct (EVD _). eauto.
Qed.


Lemma mmul_columns (a b : matrix) :
  a <> [] -> columns (mmul a b) = columns b.
Proof.
  destruct a as [|row a]; [congruence|]. intros _.
  unfold columns at 1, mmul. cbn [map nth]. now rewrite length_map, length_seq.
Qed.

Lemma transpose_length (m : matrix) : length (transpose m) = columns m.
Proof. unfold transpose. now rewrite length_map, length_seq. Qed.

Lemma transpose_columns (m : matrix) :
  (1 <= columns m)%nat -> columns (transpose m) = length m.
Proof.
  intros H. unfold columns at 1, transpose.
  destruct (columns m) as [|c]; [lia|].
  cbn [seq map nth]. apply length_map.
Qed.

Lemma whitenData_columns {L : MatrixLib} (data whitened whiteningMatrix : matrix) :
  well_shaped L -> data <> [] ->
  whitenData data = Some (whitened, whiteningMatrix) ->
  columns whiteningMatrix = length data.
Proof.
  intros (_ & Hevd) Hne. unfold whitenData.
  destruct (row0_length data) as [numSamples|]; cbn [bind]; [|discriminate].
  assert (Hcov : covariance data numSamples <> []).
  { unfold covariance, mdiv, mmul. destruct data; [congruence | discriminate]. }
  specialize (Hevd _ Hcov).
  assert (Hlen : length (covariance data numSamples) = length data).
  { unfold covariance, mdiv. now rewrite length_map, mmul_length. }
  destruct (EVD _) as [eigenvalues eigenvectors]. cbn [snd] in Hevd.
  destruct Hevd as (Hrows & Hcols).
  intros H. inversion H.
  rewrite mmul_columns.
  - rewrite transpose_columns; lia || (destruct data; [congruence | cbn in *; lia]).
  - unfold scaling_matrix. destruct data; [congruence | discriminate].
Qed.



Lemma demo_matrix_lib_well_shaped : well_shaped demo_matrix_lib.
Proof.
  split.
  - intros m. apply transpose_length.
  - intros m Hm. cbn [EVD demo_matrix_lib snd]. unfold identity_matrix.
    split; [now rewrite length_map, length_seq|].
    destruct m as [|row m]; [congruence|].
    unfold columns. cbn [length seq map nth]. now rewrite length_map, length_seq.
Defined.






(** ** Worked examples *)

Example Math_floor_examples :
  Math_floor 62.5 = FlInt 62 /\ Math_floor (-0.5) = FlInt (-1) /\
  Math_floor 3 = FlInt 3 /\ Math_floor (4.35 * 100) = FlInt 434 /\
  Math_floor nan = FlNaN /\ Math_floor infinity = FlPosInf.
Proof. repeat split; vm_compute; reflexivity. Qed.

Example spec_round_examples :
  spec_round 62.5 = FlInt 63 /\ spec_round 2.4 = FlInt 2 /\
  spec_round (-2.5) = FlInt (-2) /\ spec_round 3 = FlInt 3.
Proof. repeat split; vm_compute; reflexivity. Qed.

Example for_count_examples :
  for_count (FlInt 3) = Some 3%nat /\ for_count (FlInt (-2)) = Some 0%nat /\
  for_count FlNaN = Some 0%nat /\ for_count FlPosInf = None /\
  for_count (FlInt (2 ^ 32)) = None /\
  for_count (Math_floor (16777216 * 256)) = None.
Proof. repeat split; vm_compute; reflexivity. Qed.

Example Math_max_examples :
  Math_max 0 1e-10 = 1e-10 /\ Math_max 3 1e-10 = 3 /\
  Math_max (-0) 0 = 0 /\ Math_max nan 1e-10 = nan /\
  Math_max_list [] = neg_infinity.
Proof. repeat split; vm_compute; reflexivity. Qed.

Example array_set_examples :
  array_set [1; 2; 3] 1 9 = [1; 9; 3] /\ array_set [1] 3 9 = [1; nan; nan; 9].
Proof. repeat split; vm_compute; reflexivity. Qed.

Example js_slice_examples :
  js_slice [1; 2; 3; 4; 5] 1 3 = [2; 3] /\
  js_slice [1; 2; 3; 4; 5] (-2) 5 = [4; 5] /\
  js_slice [1; 2; 3; 4; 5] 3 9 = [4; 5].
Proof. repeat split; vm_compute; reflexivity. Qed.

(** An outlier of 100 among samples between 1 and 3, at the default
    threshold: it alone is replaced, by the mean of its neighbours. *)
Example removeArtifactsSimple_outlier :
  removeArtifactsSimple [1; 2; 100; 3; 2; 1; 2; 3; 2; 1; 2; 3] 3
  = mkICAResult [1; 2; 2.5; 3; 2; 1; 2; 3; 2; 1; 2; 3]
                [[1; 2; 100; 3; 2; 1; 2; 3; 2; 1; 2; 3]]
                [0; 0; 97.5; 0; 0; 0; 0; 0; 0; 0; 0; 0]
                [2%nat].
Proof. vm_compute. reflexivity. Qed.

(** A constant signal has zero deviation everywhere ([0/0] is NaN, which
    exceeds no threshold) and comes back unchanged. *)
Example removeArtifactsSimple_constant :
  removeArtifactsSimple [5; 5; 5] 3 = mkICAResult [5; 5; 5] [[5; 5; 5]] [0; 0; 0] [].
Proof. vm_compute. reflexivity. Qed.

(** The filter with [b = [1]], [a = [1, -0.5]]: [y[i] = x[i] + 0.5 y[i-1]]. *)
Example applyIIRFilter_one_pole :
  applyIIRFilter [1; 0; 0; 0] [1] [1; -0.5] = [1; 0.5; 0.25; 0.125].
Proof. vm_compute. reflexivity. Qed.

(** A quarter second of a 10 Hz sine at 256 Hz: the alpha band dominates and
    the rule-based label is happy, with the confidence the largest
    probability. *)
Example ten_hertz_sine_is_alpha :
  exists wave,
    generateSineWave (M := Series.math) 10 1 0.25 256 0 = Some wave /\
    length wave = 64%nat /\
    let powers := calculateBandPowers (M := Series.math) wave 256 in
    let prediction := ruleBasedClassification (M := Series.math) wave 256 in
    gt (alpha powers) (theta powers) = true /\
    gt (alpha powers) (beta powers) = true /\
    delta powers = 0 /\
    pred_emotion prediction = happy /\
    confidence prediction = prob_happy (probabilities prediction).
Proof.
  eexists. split; [vm_compute; reflexivity|].
  split; [reflexivity|]. cbv zeta. repeat split; vm_compute; reflexivity.
Qed.

(** * Further properties *)

Lemma Prim2SF_nan (x : float) : Prim2SF x = S754_nan -> x = nan.
Proof. intros H. apply Prim2SF_inj. rewrite H. reflexivity. Qed.

Lemma Prim2SF_zero (x : float) : Prim2SF x = S754_zero false -> x = 0.
Proof. intros H. apply Prim2SF_inj. rewrite H. reflexivity. Qed.

Lemma is_nan_true_eq (x : float) : is_nan x = true -> x = nan.
Proof.
  unfold is_nan. rewrite FloatAxioms.eqb_spec. unfold SFeqb. intros H.
  apply Prim2SF_nan.
  destruct (Prim2SF x) eqn:E; try reflexivity;
    rewrite SFcompare_refl in H by discriminate; discriminate H.
Qed.

Lemma add_nan_l (y : float) : nan + y = nan.
Proof. apply Prim2SF_nan. rewrite add_spec. reflexivity. Qed.

Lemma add_nan_r (x : float) : x + nan = nan.
Proof.
  apply Prim2SF_nan. rewrite add_spec.
  change (Prim2SF nan) with S754_nan. now destruct (Prim2SF x).
Qed.

Lemma sub_nan_r (x : float) : x - nan = nan.
Proof.
  apply Prim2SF_nan. rewrite sub_spec.
  change (Prim2SF nan) with S754_nan. now destruct (Prim2SF x).
Qed.

Lemma div_nan_l (y : float) : nan / y = nan.
Proof. apply Prim2SF_nan. rewrite div_spec. reflexivity. Qed.

Lemma ltb_nan_r (x : float) : (x <? nan) = false.
Proof.
  rewrite ltb_spec. change (Prim2SF nan) with S754_nan.
  unfold SFltb. now destruct (Prim2SF x).
Qed.

Lemma ltb_nan_l (x : float) : (nan <? x) = false.
Proof. rewrite ltb_spec. reflexivity. Qed.

Lemma ltb_irrefl (x : float) : (x <? x) = false.
Proof.
  destruct (x <? x) eqn:E; [|reflexivity].
  apply ltb_key in E. destruct E as (a & b & Ha & Hb & Hlt).
  rewrite Ha in Hb. inversion Hb. subst. now apply key_lt_irrefl in Hlt.
Qed.

Lemma ltb_asym (x y : float) : (x <? y) = true -> (y <? x) = false.
Proof. intros H. apply leb_not_ltb. now apply ltb_leb. Qed.

Lemma ltb_trans (x y z : float) :
  (x <? y) = true -> (y <? z) = true -> (x <? z) = true.
Proof.
  rewrite !ltb_key. intros (a & b & Ha & Hb & Hab) (b' & c & Hb' & Hc & Hbc).
  rewrite Hb in Hb'. inversion Hb'. subst b'.
  exists a, c. repeat split; auto. eapply key_lt_trans; eauto.
Qed.

Lemma leb_refl (x : float) : is_nan x = false -> (x <=? x) = true.
Proof. intros H. apply not_ltb_leb; auto. apply ltb_irrefl. Qed.

Lemma ltb_not_nan (x y : float) :
  (x <? y) = true -> is_nan x = false /\ is_nan y = false.
Proof.
  intros H. split.
  - destruct (is_nan x) eqn:E; [|reflexivity].
    apply is_nan_true_eq in E. subst. now rewrite ltb_nan_l in H.
  - destruct (is_nan y) eqn:E; [|reflexivity].
    apply is_nan_true_eq in E. subst. now rewrite ltb_nan_r in H.
Qed.

Lemma ltb_zero_nonneg (x : float) : (x <? 0) = false <-> SFnonneg (Prim2SF x).
Proof.
  rewrite ltb_spec. change (Prim2SF 0) with (S754_zero false). unfold SFltb.
  destruct (Prim2SF x) as [s|s| |s m e]; try destruct s; cbn; intuition congruence.
Qed.

Lemma binary_round_aux_nonneg (mx ex : Z) (lx : location) :
  SFnonneg (binary_round_aux prec emax false mx ex lx).
Proof.
  unfold binary_round_aux.
  destruct (shr_fexp _ _ _ _ _) as [mrs' e'].
  destruct (shr_fexp _ _ _ _ _) as [mrs'' e''].
  destruct (shr_m mrs''); cbn; auto.
  destruct (_ <=? _)%Z; cbn; auto.
Qed.

Lemma binary_round_nonneg (m : positive) (e : Z) :
  SFnonneg (binary_round prec emax false m e).
Proof.
  unfold binary_round. destruct (shl_align _ _ _). apply binary_round_aux_nonneg.
Qed.

Lemma binary_normalize_nonneg (m e : Z) :
  (0 <= m)%Z -> SFnonneg (binary_normalize prec emax m e false).
Proof.
  intros H. destruct m as [|p|p]; [exact I | apply binary_round_nonneg | lia].
Qed.

Lemma SFmul_self_nonneg (x : spec_float) : SFnonneg (SF64mul x x).
Proof.
  destruct x as [s|s| |s m e]; cbn; auto.
  - now destruct s.
  - rewrite xorb_nilpotent. apply binary_round_aux_nonneg.
Qed.

Lemma SFadd_nonneg (x y : spec_float) :
  SFnonneg x -> SFnonneg y -> SFnonneg (SF64add x y).
Proof.
  destruct x as [sx|sx| |sx mx ex], y as [sy|sy| |sy my ey];
    try destruct sx; try destruct sy; cbn; auto; try contradiction.
  intros _ _. apply binary_round_nonneg.
Qed.

Lemma SFdiv_nonneg (x y : spec_float) :
  SFnonneg x -> SFnonneg y -> y <> S754_zero true -> SFnonneg (SF64div x y).
Proof.
  destruct x as [sx|sx| |sx mx ex], y as [sy|sy| |sy my ey];
    try destruct sx; try destruct sy; cbn; auto; try contradiction;
    try congruence.
  intros _ _ _.
  destruct (SFdiv_core_binary prec emax (Z.pos mx) ex (Z.pos my) ey) as [[mz ez] lz].
  apply binary_round_aux_nonneg.
Qed.

Lemma SFsqrt_nonneg (x : spec_float) : SFnonneg (SF64sqrt x).
Proof.
  destruct x as [s|s| |s m e]; try destruct s; cbn; auto.
  destruct (SFsqrt_core_binary prec emax (Z.pos m) e) as [[mz ez] lz].
  apply binary_round_aux_nonneg.
Qed.

Lemma of_nat_nonneg (n : nat) :
  SFnonneg (Prim2SF (of_nat n)) /\ Prim2SF (of_nat n) <> S754_zero true.
Proof.
  unfold of_nat. rewrite of_uint63_spec.
  pose proof (Uint63.to_Z_bounded (Uint63.of_Z (Z.of_nat n))) as (H & _).
  destruct (Uint63.to_Z _) as [|p|p]; [cbn; split; [exact I | discriminate] | | lia].
  split; [apply binary_round_nonneg|].
  cbn [binary_normalize]. unfold binary_round.
  destruct (shl_align _ _ _). unfold binary_round_aux.
  destruct (shr_fexp _ _ _ _ _) as [mrs' e'].
  destruct (shr_fexp _ _ _ _ _) as [mrs'' e''].
  destruct (shr_m mrs''); try discriminate.
  destruct (_ <=? _)%Z; discriminate.
Qed.

Lemma never_negative_zero : never_negative 0.
Proof. reflexivity. Qed.

Lemma never_negative_square (x : number) : never_negative (x * x).
Proof. apply ltb_zero_nonneg. rewrite mul_spec. apply SFmul_self_nonneg. Qed.

Lemma never_negative_add (x y : number) :
  never_negative x -> never_negative y -> never_negative (x + y).
Proof.
  unfold never_negative. rewrite !ltb_zero_nonneg, add_spec. apply SFadd_nonneg.
Qed.

Lemma never_negative_div_count (x : number) (n : nat) :
  never_negative x -> never_negative (x / of_nat n).
Proof.
  unfold never_negative. rewrite !ltb_zero_nonneg, div_spec. intros H.
  destruct (of_nat_nonneg n). now apply SFdiv_nonneg.
Qed.

Lemma never_negative_sqrt (x : number) : never_negative (Math_sqrt x).
Proof. apply ltb_zero_nonneg. unfold Math_sqrt. rewrite sqrt_spec. apply SFsqrt_nonneg. Qed.

(** ** More on the statistical strategy *)

Lemma simple_indices_loop (signal : list number) (threshold : number) (k : nat) :
  st_indices (for_loop k (simple_step signal threshold) (mkSimple [] [] []))
  = filter (fun i => gt (deviation signal i) threshold) (seq 0 k).
Proof.
  induction k as [|k IH]; [reflexivity|].
  rewrite for_loop_S, seq_S, filter_app. cbn [Nat.add filter].
  unfold simple_step at 1.
  destruct (gt (deviation signal k) threshold); cbn [st_indices]; rewrite IH.
  - reflexivity.
  - now rewrite app_nil_r.
Qed.

Lemma filter_seq_sorted (p : nat -> bool) (start len : nat) :
  StronglySorted lt (filter p (seq start len)).
Proof.
  revert start. induction len as [|len IH]; intros start; cbn.
  - constructor.
  - destruct (p start); [|apply IH].
    constructor; [apply IH|].
    apply Forall_forall. intros j Hj. apply filter_In in Hj.
    destruct Hj as (Hj & _). apply in_seq in Hj. lia.
Qed.

(** X1. The indices [removeArtifactsSimple] reports are exactly the flagged
    sample indices, each once, in increasing order. *)
Theorem simple_artifact_indices (signal : list number) (threshold : number) :
  let r := removeArtifactsSimple signal threshold in
  artifactIndices r
  = filter (fun i => gt (deviation signal i) threshold) (seq 0 (length signal)) /\
  StronglySorted lt (artifactIndices r) /\
  (forall i, In i (artifactIndices r) <->
             (i < length signal)%nat /\ gt (deviation signal i) threshold = true).
Proof.
  cbn zeta. unfold removeArtifactsSimple. cbn [artifactIndices].
  rewrite simple_indices_loop. split; [reflexivity|]. split.
  - apply filter_seq_sorted.
  - intros i. rewrite filter_In, in_seq. intuition lia.
Qed.

Lemma get_repeat (x : number) (n i : nat) :
  (i < n)%nat -> get (repeat x n) i = x.
Proof.
  intros H. unfold get. rewrite (nth_indep _ nan x) by (now rewrite repeat_length).
  apply nth_repeat.
Qed.

Lemma list_eq_by_get (a b : list number) :
  length a = length b ->
  (forall i, (i < length a)%nat -> get a i = get b i) -> a = b.
Proof. intros Hl H. now apply (nth_ext a b nan nan). Qed.

Lemma filter_none {A : Type} (p : A -> bool) (l : list A) :
  (forall x, In x l -> p x = false) -> filter p l = [].
Proof.
  induction l as [|x l IH]; intros H; cbn; [reflexivity|].
  rewrite (H x) by now left. apply IH. intros y Hy. apply H. now right.
Qed.

(** When no sample is flagged the signal comes back as it is. *)
Lemma simple_nothing_flagged (signal : list number) (threshold : number) :
  (forall i, (i < length signal)%nat -> gt (deviation signal i) threshold = false) ->
  removeArtifactsSimple signal threshold
  = mkICAResult signal [signal] (repeat 0 (length signal)) [].
Proof.
  intros Hnone.
  pose proof (removeArtifactsSimple_lengths signal threshold) as (Hlc & Hlr).
  cbn zeta in Hlc, Hlr.
  assert (Hw : forall i, (i < length signal)%nat ->
             get (cleanSignal (removeArtifactsSimple signal threshold)) i = get signal i /\
             get (removedArtifacts (removeArtifactsSimple signal threshold)) i = 0).
  { intros i Hi. pose proof (removeArtifactsSimple_written signal threshold i Hi) as H.
    cbn zeta in H. unfold written_at in H. rewrite (Hnone i Hi) in H.
    cbn [st_clean st_removed] in H. tauto. }
  assert (Hidx : artifactIndices (removeArtifactsSimple signal threshold)
                 = filter (fun i => gt (deviation signal i) threshold)
                          (seq 0 (length signal))).
  { unfold removeArtifactsSimple. cbn [artifactIndices]. apply simple_indices_loop. }
  destruct (removeArtifactsSimple signal threshold) as [c comps r ix] eqn:E.
  cbn [cleanSignal removedArtifacts artifactIndices] in *.
  assert (comps = [signal]) as -> by (unfold removeArtifactsSimple in E; now inversion E).
  f_equal.
  - apply list_eq_by_get; [exact Hlc|]. intros i Hi. apply Hw. lia.
  - apply list_eq_by_get; [now rewrite repeat_length|].
    intros i Hi. rewrite get_repeat by lia. apply Hw. lia.
  - rewrite Hidx. apply filter_none. intros i Hi. apply in_seq in Hi. apply Hnone. lia.
Qed.

Lemma sum_from_nan (xs : list number) : fold_left add xs nan = nan.
Proof.
  induction xs as [|x xs IH]; [reflexivity|]. cbn [fold_left]. now rewrite add_nan_l.
Qed.

Lemma sum_with_nan (xs : list number) (acc : number) :
  In nan xs -> fold_left add xs acc = nan.
Proof.
  revert acc. induction xs as [|x xs IH]; intros acc H; [contradiction|].
  cbn [fold_left]. destruct H as [H|H].
  - subst x. rewrite add_nan_r. apply sum_from_nan.
  - now apply IH.
Qed.

(** X2. A NaN sample, or a NaN threshold, switches the removal off: the mean
    is then NaN, no deviation exceeds the threshold, and the result is the
    input with nothing removed. *)
Theorem simple_nan_disables_removal (signal : list number) (threshold : number) :
  is_nan threshold = true \/
  (exists j, (j < length signal)%nat /\ is_nan (get signal j) = true) ->
  removeArtifactsSimple signal threshold
  = mkICAResult signal [signal] (repeat 0 (length signal)) [].
Proof.
  intros H. apply simple_nothing_flagged. intros i Hi. unfold gt.
  destruct H as [H|(j & Hj & H)]; apply is_nan_true_eq in H.
  - rewrite H. apply ltb_nan_l.
  - assert (Hmean : signal_mean signal = nan).
    { unfold signal_mean, sum. rewrite sum_with_nan; [apply div_nan_l|].
      rewrite <- H. apply nth_In. exact Hj. }
    unfold deviation. rewrite Hmean, sub_nan_r.
    change (Math_abs nan) with nan. rewrite div_nan_l. apply ltb_nan_r.
Qed.

Lemma simple_nan_disables_removal_witness :
  removeArtifactsSimple [1; nan; 100; 2] 3
  = mkICAResult [1; nan; 100; 2] [[1; nan; 100; 2]] (repeat 0 4) [].
Proof.
  apply (simple_nan_disables_removal [1; nan; 100; 2] 3).
  right. exists 1%nat. split; [cbn; lia | reflexivity].
Defined.

(** ** More on the filter bank *)

Lemma feed_forward_ext (s1 s2 b : list number) (i : nat) :
  (forall m, (m <= i)%nat -> get s1 m = get s2 m) ->
  feed_forward s1 b i = feed_forward s2 b i.
Proof.
  intros Hext. unfold feed_forward, for_loop.
  assert (H : forall js acc,
             fold_left (fun sum j => if (j <=? i)%nat
                                     then sum + get b j * get s1 (i - j) else sum) js acc
             = fold_left (fun sum j => if (j <=? i)%nat
                                       then sum + get b j * get s2 (i - j) else sum) js acc).
  { induction js as [|j js IH]; intros acc; cbn [fold_left]; [reflexivity|].
    destruct (j <=? i)%nat eqn:Hji; [|apply IH].
    rewrite (Hext (i - j)%nat) by lia. apply IH. }
  apply H.
Qed.

(** X3. [applyIIRFilter] is causal: two signals that agree on their first [k]
    samples are filtered to outputs that agree on their first [k] samples. *)
Theorem applyIIRFilter_causal (s1 s2 b a : list number) (k i : nat) :
  (k <= length s1)%nat -> (k <= length s2)%nat ->
  (forall m, (m < k)%nat -> get s1 m = get s2 m) ->
  (i < k)%nat ->
  get (applyIIRFilter s1 b a) i = get (applyIIRFilter s2 b a) i.
Proof.
  intros H1 H2 Hagree.
  induction i as [i IH] using (well_founded_induction Wf_nat.lt_wf). intros Hi.
  rewrite !applyIIRFilter_recurrence by lia.
  rewrite (feed_forward_ext s1 s2 b i) by (intros m Hm; apply Hagree; lia).
  apply feed_back_ext. intros m Hm. apply IH; lia.
Qed.

Lemma applyIIRFilter_causal_witness :
  get (applyIIRFilter [1; 2; 3; 4] [0.5; 0.25] [1; -0.5]) 1
  = get (applyIIRFilter [1; 2; 9] [0.5; 0.25] [1; -0.5]) 1.
Proof.
  apply (applyIIRFilter_causal [1; 2; 3; 4] [1; 2; 9] [0.5; 0.25] [1; -0.5] 2 1).
  - cbn; lia.
  - cbn; lia.
  - intros [|[|m]] Hm; [reflexivity | reflexivity | lia].
  - lia.
Defined.

Lemma mul_zero_finite (y : float) :
  finite_number y = true -> exists s, Prim2SF (y * 0) = S754_zero s.
Proof.
  unfold finite_number. rewrite mul_spec.
  change (Prim2SF 0) with (S754_zero false).
  destruct (Prim2SF y) as [s|s| |s m e]; try discriminate; cbn; eauto.
Qed.

Lemma zero_plus_zero (z : float) (s : bool) :
  Prim2SF z = S754_zero s -> 0 + z = 0.
Proof.
  intros H. apply Prim2SF_zero. rewrite add_spec, H.
  change (Prim2SF 0) with (S754_zero false). now destruct s.
Qed.

Lemma zero_minus_zero (z : float) (s : bool) :
  Prim2SF z = S754_zero s -> 0 - z = 0.
Proof.
  intros H. apply Prim2SF_zero. rewrite sub_spec, H.
  change (Prim2SF 0) with (S754_zero false). now destruct s.
Qed.

Lemma finite_get (xs : list number) (j : nat) :
  Forall (fun x => finite_number x = true) xs -> (j < length xs)%nat ->
  finite_number (get xs j) = true.
Proof.
  intros H Hj. rewrite Forall_forall in H. apply H. now apply nth_In.
Qed.

Lemma feed_forward_zero (b : list number) (n i : nat) :
  Forall (fun x => finite_number x = true) b -> (i < n)%nat ->
  feed_forward (repeat 0 n) b i = 0.
Proof.
  intros Hb Hi. unfold feed_forward, for_loop.
  assert (Hjs : Forall (fun j => j < length b)%nat (seq 0 (length b))).
  { apply Forall_forall. intros j Hj. apply in_seq in Hj. lia. }
  induction Hjs as [|j js Hj _ IH]; cbn [fold_left]; [reflexivity|].
  destruct (j <=? i)%nat; [|exact IH].
  rewrite get_repeat by lia.
  destruct (mul_zero_finite _ (finite_get b j Hb Hj)) as (s & Hs).
  now rewrite (zero_plus_zero _ s Hs).
Qed.

Lemma feed_back_zero (a : list number) (n i : nat) :
  Forall (fun x => finite_number x = true) a -> (i < n)%nat ->
  feed_back (repeat 0 n) a i 0 = 0.
Proof.
  intros Ha Hi. unfold feed_back.
  assert (Hjs : Forall (fun j => 1 <= j < length a)%nat (seq 1 (length a - 1))).
  { apply Forall_forall. intros j Hj. apply in_seq in Hj. lia. }
  induction Hjs as [|j js Hj _ IH]; cbn [fold_left]; [reflexivity|].
  destruct (j <=? i)%nat eqn:Hji; [|exact IH].
  rewrite get_repeat by lia.
  destruct (mul_zero_finite _ (finite_get a j Ha ltac:(lia))) as (s & Hs).
  now rewrite (zero_minus_zero _ s Hs).
Qed.

Lemma array_set_same (a : list number) (i : nat) :
  (i < length a)%nat -> array_set a i (get a i) = a.
Proof.
  intros Hi. apply list_eq_by_get; [now apply array_set_length|].
  intros j _. destruct (Nat.eq_dec i j) as [->|Hne].
  - apply array_set_get_same.
  - now apply array_set_get_other.
Qed.

Lemma rev_zeros (n : nat) : rev (repeat 0 n) = repeat 0 n.
Proof.
  induction n as [|n IH]; [reflexivity|].
  cbn [repeat rev]. rewrite IH. symmetry. apply (repeat_cons n 0).
Qed.

Lemma filters_of_zeros (b a : list number) (n : nat) :
  Forall (fun x => finite_number x = true) b ->
  Forall (fun x => finite_number x = true) a ->
  applyIIRFilter (repeat 0 n) b a = repeat 0 n /\
  filtfilt (repeat 0 n) b a = repeat 0 n.
Proof.
  intros Hb Ha.
  assert (H : applyIIRFilter (repeat 0 n) b a = repeat 0 n).
  { unfold applyIIRFilter. rewrite repeat_length.
    assert (Hk : forall k, (k <= n)%nat ->
              for_loop k
                (fun output i =>
                   array_set output i
                     (feed_back output a i (feed_forward (repeat 0 n) b i)))
                (repeat 0 n) = repeat 0 n).
    { induction k as [|k IH]; intros Hk; [reflexivity|].
      rewrite for_loop_S, IH by lia.
      rewrite feed_forward_zero, feed_back_zero by (auto; lia).
      rewrite <- (get_repeat 0 n k) at 2 by lia.
      apply array_set_same. rewrite repeat_length. lia. }
    now apply Hk. }
  split; [exact H|]. unfold filtfilt. now rewrite H, rev_zeros, H, rev_zeros.
Qed.

(** X4. With finite coefficients, filtering a zero signal gives the zero
    signal, forwards and forward-backward. *)
Theorem zero_signal_is_filtered_to_zero (b a : list number) (n : nat) :
  Forall (fun x => finite_number x = true) b ->
  Forall (fun x => finite_number x = true) a ->
  applyIIRFilter (repeat 0 n) b a = repeat 0 n /\
  filtfilt (repeat 0 n) b a = repeat 0 n.
Proof.
  intros Hb Ha. pose proof (filters_of_zeros b a n Hb Ha) as [H1 H2].
  split; [exact H1 | exact H2].
Qed.

Lemma zero_signal_is_filtered_to_zero_witness :
  applyIIRFilter (repeat 0 5) [0.25; 0.5; 0.25] [1; -1.5; 0.7] = repeat 0 5 /\
  filtfilt (repeat 0 5) [0.25; 0.5; 0.25] [1; -1.5; 0.7] = repeat 0 5.
Proof.
  apply (zero_signal_is_filtered_to_zero [0.25; 0.5; 0.25] [1; -1.5; 0.7] 5);
    repeat constructor.
Defined.

(** ** More on the spectral analyzer *)

Lemma fold_add_never_negative (xs : list number) (acc : number) :
  Forall never_negative xs -> never_negative acc ->
  never_negative (fold_left add xs acc).
Proof.
  intros H. revert acc. induction H as [|x xs Hx _ IH]; intros acc Hacc; cbn [fold_left].
  - exact Hacc.
  - apply IH. now apply never_negative_add.
Qed.

Lemma powers_in_never_negative (lo hi : number) (incl : bool)
    (bins : list (number * number)) :
  Forall never_negative (powers_in lo hi incl bins).
Proof.
  unfold powers_in. apply Forall_forall. intros x Hx. apply in_map_iff in Hx.
  destruct Hx as (bin & <- & _). apply never_negative_square.
Qed.

Lemma band_average_never_negative (total : number) (count : nat) :
  never_negative total -> never_negative (band_average total count).
Proof.
  intros H. unfold band_average. destruct (0 <? count)%nat.
  - now apply never_negative_div_count.
  - apply never_negative_zero.
Qed.

Lemma band_vector_sign {M : MathImpl} (signal : list number)
    (sampleRate : number) :
  let p := calculateBandPowers signal sampleRate in
  Forall never_negative [delta p; theta p; alpha p; beta p; gamma p].
Proof.
  cbn zeta. unfold calculateBandPowers.
  rewrite (surjective_pairing (computeFFT signal sampleRate)).
  pose proof (computeFFT_lengths signal sampleRate) as (Hf & Hm).
  rewrite band_loop_as_fold by congruence.
  pose proof (band_fold_spec
                (combine (fst (computeFFT signal sampleRate))
                         (snd (computeFFT signal sampleRate)))
                (mkBandAcc 0 0 0 0 0 O O O O O)) as H.
  cbn zeta in H.
  cbn [acc_delta acc_theta acc_alpha acc_beta acc_gamma] in H.
  destruct H as ((-> & _) & (-> & _) & (-> & _) & (-> & _) & (-> & _)).
  cbn [delta theta alpha beta gamma].
  repeat constructor; apply band_average_never_negative;
    apply fold_add_never_negative;
    auto using powers_in_never_negative, never_negative_zero.
Qed.

Lemma extractFeatures_length {M : MathImpl} (signal : list number)
    (sampleRate : number) (windowSize sequenceLength : nat) :
  length (extractFeatures signal sampleRate windowSize sequenceLength)
  = sequenceLength.
Proof.
  unfold extractFeatures. now rewrite length_map, length_seq.
Qed.

(** X5. No band power is ever negative: each is NaN, zero or positive, for
    every signal, sample rate and implementation of the [Math] functions. *)
Theorem band_powers_never_negative {M : MathImpl} (signal : list number)
    (sampleRate : number) :
  let p := calculateBandPowers signal sampleRate in
  never_negative (delta p) /\ never_negative (theta p) /\
  never_negative (alpha p) /\ never_negative (beta p) /\
  never_negative (gamma p).
Proof.
  cbn zeta. pose proof (band_vector_sign signal sampleRate) as H.
  cbn zeta in H.
  repeat match goal with
         | H : Forall _ (_ :: _) |- _ => inversion H; subst; clear H
         end.
  repeat split; assumption.
Qed.


(** ** Signal statistics *)

Lemma Math_min_lower (x y : number) :
  is_nan x = false -> is_nan y = false ->
  is_nan (Math_min x y) = false /\
  (Math_min x y <=? x) = true /\ (Math_min x y <=? y) = true.
Proof.
  intros Hx Hy. unfold Math_min. rewrite Hx, Hy. cbn [orb].
  destruct (x <? y) eqn:Exy.
  { repeat split; auto using leb_refl, ltb_leb. }
  destruct (y <? x) eqn:Eyx.
  { repeat split; auto using leb_refl, ltb_leb. }
  destruct (get_sign x); repeat split; auto using leb_refl, not_ltb_leb.
Qed.

Lemma Math_max_upper (x y : number) :
  is_nan x = false -> is_nan y = false ->
  is_nan (Math_max x y) = false /\
  (x <=? Math_max x y) = true /\ (y <=? Math_max x y) = true.
Proof.
  intros Hx Hy. unfold Math_max. rewrite Hx, Hy. cbn [orb].
  destruct (x <? y) eqn:Exy.
  { repeat split; auto using leb_refl, ltb_leb. }
  destruct (y <? x) eqn:Eyx.
  { repeat split; auto using leb_refl, ltb_leb. }
  destruct (get_sign x); repeat split; auto using leb_refl, not_ltb_leb.
Qed.

Lemma fold_min_lower (xs : list number) (acc : number) :
  Forall (fun y => is_nan y = false) xs -> is_nan acc = false ->
  is_nan (fold_left Math_min xs acc) = false /\
  (fold_left Math_min xs acc <=? acc) = true /\
  (forall x, In x xs -> (fold_left Math_min xs acc <=? x) = true).
Proof.
  intros H. revert acc. induction H as [|y xs Hy _ IH]; intros acc Hacc; cbn [fold_left].
  - split; [|split]; [assumption | now apply leb_refl | intros x []].
  - destruct (Math_min_lower acc y Hacc Hy) as (Hn & Ha & Hb).
    destruct (IH _ Hn) as (Hn' & Hle & Hin).
    repeat split; auto.
    + eapply leb_trans; eauto.
    + intros x [<-|Hx]; [eapply leb_trans; eauto | now apply Hin].
Qed.

Lemma fold_max_upper (xs : list number) (acc : number) :
  Forall (fun y => is_nan y = false) xs -> is_nan acc = false ->
  is_nan (fold_left Math_max xs acc) = false /\
  (acc <=? fold_left Math_max xs acc) = true /\
  (forall x, In x xs -> (x <=? fold_left Math_max xs acc) = true).
Proof.
  intros H. revert acc. induction H as [|y xs Hy _ IH]; intros acc Hacc; cbn [fold_left].
  - split; [|split]; [assumption | now apply leb_refl | intros x []].
  - destruct (Math_max_upper acc y Hacc Hy) as (Hn & Ha & Hb).
    destruct (IH _ Hn) as (Hn' & Hle & Hin).
    repeat split; auto.
    + eapply leb_trans; eauto.
    + intros x [<-|Hx]; [eapply leb_trans; eauto | now apply Hin].
Qed.

(** X7. For a signal without NaN, [calculateSignalStats] reports a minimum
    below and a maximum above every sample, and its standard deviation and
    RMS are never negative. *)
Theorem signal_stats_bounds (signal : list number) (x : number) :
  Forall (fun y => is_nan y = false) signal ->
  In x signal ->
  let s := calculateSignalStats signal in
  (stat_min s <=? x) = true /\ (x <=? stat_max s) = true /\
  (stat_min s <=? stat_max s) = true /\
  never_negative (stat_std s) /\ never_negative (stat_rms s).
Proof.
  intros Hnan Hx. cbn zeta. unfold calculateSignalStats.
  destruct signal as [|y ys]; [contradiction|].
  cbn [length Nat.eqb]. cbn [stat_min stat_max stat_std stat_rms].
  destruct (fold_min_lower (y :: ys) infinity Hnan eq_refl) as (_ & _ & Hmin).
  unfold Math_max_list.
  destruct (fold_max_upper (y :: ys) neg_infinity Hnan eq_refl) as (_ & _ & Hmax).
  repeat split; auto using never_negative_sqrt.
  eapply leb_trans; [apply (Hmin x Hx) | apply (Hmax x Hx)].
Qed.

Lemma signal_stats_bounds_witness :
  let s := calculateSignalStats [3; -1; 2.5; 0] in
  (stat_min s <=? 2.5) = true /\ (2.5 <=? stat_max s) = true /\
  (stat_min s <=? stat_max s) = true /\
  never_negative (stat_std s) /\ never_negative (stat_rms s).
Proof.
  cbv zeta. apply (signal_stats_bounds [3; -1; 2.5; 0] 2.5).
  - repeat constructor.
  - cbn. auto.
Defined.

(** ** More on the classifier *)

(** One [if (x > maxProb) maxProb = x] keeps every bound already reached. *)
Lemma running_max_step (x m q : number) :
  let m' := if gt x m then x else m in
  gt x m' = false /\
  (gt q m = false -> gt q m' = false) /\
  (ge m 0 = true -> ge m' 0 = true).
Proof.
  cbn zeta. unfold gt, ge. destruct (m <? x) eqn:E.
  - split; [apply ltb_irrefl|]. split.
    + intros Hq. destruct (x <? q) eqn:Exq; [|reflexivity].
      rewrite (ltb_trans _ _ _ E Exq) in Hq. discriminate.
    + intros H0. eapply leb_trans; [exact H0 | now apply ltb_leb].
  - auto.
Qed.

(** X8. The rule-based classifier reports as confidence the probability of
    the label it returns, and no probability is greater than it. *)
Theorem rule_based_confidence_is_maximum {M : MathImpl} (signal : list number)
    (sampleRate : number) :
  let r := ruleBasedClassification signal sampleRate in
  let p := probabilities r in
  confidence r = probability_of p (pred_emotion r) /\
  gt (prob_happy p) (confidence r) = false /\
  gt (prob_neutral p) (confidence r) = false /\
  gt (prob_sad p) (confidence r) = false.
Proof.
  cbv zeta. unfold ruleBasedClassification. cbv zeta.
  match goal with
  | |- context [mkProbabilities ?h ?n ?s] => set (ph := h); set (pn := n); set (ps := s)
  end.
  clearbody ph pn ps. cbn [prob_happy prob_neutral prob_sad].
  assert (Hirr : forall x, gt x x = false) by (intro; apply ltb_irrefl).
  assert (Hup : forall x m q, gt x m = true -> gt q m = false -> gt q x = false).
  { intros x m q Hx Hq. pose proof (running_max_step x m q) as (_ & H & _).
    cbn zeta in H. rewrite Hx in H. auto. }
  destruct (gt ph pn) eqn:E1;
    [destruct (gt ps ph) eqn:E2 | destruct (gt ps pn) eqn:E2];
    cbn [confidence probabilities pred_emotion probability_of
         prob_happy prob_neutral prob_sad];
    (split; [reflexivity|]); repeat split; auto.
  - apply (Hup ps ph); auto.
  - apply (Hup ps ph); auto. apply (Hup ph pn); auto.
  - apply (Hup ph pn); auto.
  - apply (Hup ps pn); auto.
  - apply (Hup ps pn); auto.
Qed.



(** ** Feature normalisation *)

Lemma get_mapi {A : Type} (f : A -> nat -> number) (xs : list A) (d : A) (i : nat) :
  (i < length xs)%nat -> get (mapi f xs) i = f (nth i xs d) i.
Proof.
  intros Hi. unfold get. apply mapi_nth. exact Hi.
Qed.

Lemma get_overflow (a : list number) (i : nat) :
  (length a <= i)%nat -> get a i = nan.
Proof.
  intros Hi. unfold get. now apply nth_overflow.
Qed.

Lemma column_fold_get (f : number -> number -> number) (init : number)
    (numFeatures : nat) (features : list (list number)) (i : nat) :
  length (column_fold f init numFeatures features) = numFeatures /\
  get (column_fold f init numFeatures features) i =
    if (i <? numFeatures)%nat
    then fold_left f (map (fun row => get row i) features) init
    else nan.
Proof.
  unfold column_fold.
  assert (G : forall acc,
    length (fold_left (fun acc row => mapi (fun m i => f m (get row i)) acc)
                      features acc) = length acc /\
    get (fold_left (fun acc row => mapi (fun m i => f m (get row i)) acc)
                   features acc) i =
      if (i <? length acc)%nat
      then fold_left f (map (fun row => get row i) features) (get acc i)
      else nan).
  { induction features as [|row rest IH]; intros acc; cbn [fold_left map].
    - split; [reflexivity|]. destruct (i <? length acc)%nat eqn:E; [reflexivity|].
      apply get_overflow. apply Nat.ltb_ge in E. exact E.
    - destruct (IH (mapi (fun m i => f m (get row i)) acc)) as [Hl Hg].
      rewrite mapi_length in Hl, Hg. split; [exact Hl|].
      rewrite Hg. destruct (i <? length acc)%nat eqn:E; [|reflexivity].
      apply Nat.ltb_lt in E. rewrite (get_mapi _ acc nan) by exact E.
      reflexivity. }
  destruct (G (repeat init numFeatures)) as [Hl Hg].
  rewrite repeat_length in Hl, Hg. split; [exact Hl|].
  rewrite Hg. destruct (i <? numFeatures)%nat eqn:E; [|reflexivity].
  apply Nat.ltb_lt in E. unfold get. now rewrite nth_repeat_lt.
Qed.

Lemma ltb_infinity_l (v : number) : (infinity <? v) = false.
Proof.
  rewrite ltb_spec. change (Prim2SF infinity) with (S754_infinity false).
  unfold SFltb. destruct (Prim2SF v) as [s|s| |s m e]; try destruct s; reflexivity.
Qed.

Lemma ltb_neg_infinity_r (v : number) : (v <? neg_infinity) = false.
Proof.
  rewrite ltb_spec. change (Prim2SF neg_infinity) with (S754_infinity true).
  unfold SFltb. destruct (Prim2SF v) as [s|s| |s m e]; try destruct s; reflexivity.
Qed.

Lemma Math_min_infinity (v : number) : Math_min infinity v = v.
Proof.
  unfold Math_min. change (is_nan infinity) with false. cbn [orb].
  destruct (is_nan v) eqn:E; [symmetry; now apply is_nan_true_eq|].
  rewrite ltb_infinity_l. destruct (v <? infinity); reflexivity.
Qed.

Lemma Math_max_neg_infinity (v : number) : Math_max neg_infinity v = v.
Proof.
  unfold Math_max. change (is_nan neg_infinity) with false. cbn [orb].
  destruct (is_nan v) eqn:E; [symmetry; now apply is_nan_true_eq|].
  rewrite ltb_neg_infinity_r. destruct (neg_infinity <? v); reflexivity.
Qed.

Lemma Math_min_same (v : number) : Math_min v v = v.
Proof.
  unfold Math_min. destruct (is_nan v) eqn:E; [symmetry; now apply is_nan_true_eq|].
  cbn [orb]. rewrite ltb_irrefl. destruct (get_sign v); reflexivity.
Qed.

Lemma Math_max_same (v : number) : Math_max v v = v.
Proof.
  unfold Math_max. destruct (is_nan v) eqn:E; [symmetry; now apply is_nan_true_eq|].
  cbn [orb]. rewrite ltb_irrefl. destruct (get_sign v); reflexivity.
Qed.

(** An extremum over a non-empty run of one value is that value. *)
Lemma fold_constant (f : number -> number -> number) (init v : number)
    (l : list number) :
  f init v = v -> f v v = v -> l <> [] -> (forall x, In x l -> x = v) ->
  fold_left f l init = v.
Proof.
  intros Hinit Hsame Hne Hall. destruct l as [|x l]; [contradiction|].
  cbn [fold_left]. rewrite (Hall x (or_introl eq_refl)), Hinit.
  assert (Hl : forall y, In y l -> y = v) by (intros y Hy; apply Hall; now right).
  clear Hall Hne. induction l as [|y l IH]; [reflexivity|].
  cbn [fold_left]. rewrite (Hl y (or_introl eq_refl)), Hsame.
  apply IH. intros z Hz. apply Hl. now right.
Qed.

(** [w - w] is +0 or NaN, never positive. *)
Lemma sub_same_not_positive (w : number) : gt (w - w) 0 = false.
Proof.
  unfold gt. rewrite ltb_spec, sub_spec.
  change (Prim2SF 0) with (S754_zero false).
  destruct (Prim2SF w) as [s|s| |s m e]; try destruct s; try reflexivity.
  all: unfold SF64sub, SFsub; cbn [negb Bool.eqb];
    match goal with
    | |- context [binary_normalize _ _ ?d _ _] =>
        replace d with 0%Z by (symmetry; apply Z.sub_diag)
    end; reflexivity.
Qed.

Lemma column_extrema_of_constant (features : list (list number)) (n i : nat)
    (v : number) :
  features <> [] -> (forall row, In row features -> get row i = v) ->
  get (column_fold Math_max neg_infinity n features) i
  = get (column_fold Math_min infinity n features) i.
Proof.
  intros Hne Hall.
  destruct (column_fold_get Math_max neg_infinity n features i) as [_ ->].
  destruct (column_fold_get Math_min infinity n features i) as [_ ->].
  destruct (i <? n)%nat; [|reflexivity].
  assert (Hm : map (fun row => get row i) features <> []).
  { destruct features; [contradiction|discriminate]. }
  assert (Hv : forall x, In x (map (fun row => get row i) features) -> x = v).
  { intros x Hx. apply in_map_iff in Hx. destruct Hx as (row & <- & Hrow). auto. }
  rewrite (fold_constant Math_max neg_infinity v);
    auto using Math_max_neg_infinity, Math_max_same.
  rewrite (fold_constant Math_min infinity v);
    auto using Math_min_infinity, Math_min_same.
Qed.

(** X10. [normalizeFeatures] throws on an empty feature list only and keeps
    the shape of its input; a feature with the same value in every row (NaN
    included) has no range and becomes 0.5 in every row. *)
Theorem normalizeFeatures_constant_feature (features : list (list number))
    (i : nat) (v : number) :
  features <> [] ->
  (forall row, In row features -> get row i = v) ->
  exists out,
    normalizeFeatures features = Some out /\
    length out = length features /\
    forall k, (k < length features)%nat ->
      length (nth k out []) = length (nth k features []) /\
      ((i < length (nth k features []))%nat -> get (nth k out []) i = 0.5).
Proof.
  intros Hne Hall. unfold normalizeFeatures.
  destruct features as [|row0 rest] eqn:Ef; [contradiction|].
  rewrite <- Ef in *. cbv zeta. eexists. split; [reflexivity|].
  split; [apply length_map|].
  intros k Hk.
  match goal with
  | |- context [map ?g features] =>
      rewrite (nth_indep (map g features) [] (g [])) by (now rewrite length_map);
      rewrite (map_nth g features [] k)
  end.
  split; [apply mapi_length|].
  intros Hi. rewrite (get_mapi _ _ nan) by exact Hi.
  rewrite (column_extrema_of_constant features (length row0) i v Hne Hall).
  now rewrite sub_same_not_positive.
Qed.

Lemma normalizeFeatures_constant_feature_witness :
  exists out,
    normalizeFeatures [[1; 7; 3]; [2; 7; 5]] = Some out /\
    length out = length [[1; 7; 3]; [2; 7; 5]] /\
    forall k, Nat.lt k (length [[1; 7; 3]; [2; 7; 5]]) ->
      length (nth k out []) = length (nth k [[1; 7; 3]; [2; 7; 5]] []) /\
      (Nat.lt 1 (length (nth k [[1; 7; 3]; [2; 7; 5]] [])) ->
       get (nth k out []) 1 = 0.5).
Proof.
  apply (normalizeFeatures_constant_feature [[1; 7; 3]; [2; 7; 5]] 1 7).
  - discriminate.
  - intros row [<-|[<-|[]]]; reflexivity.
Defined.

(** ** The filter chain and the page that runs it *)

Lemma highPassFilter_length {M : MathImpl} (signal : list number)
    (cutoffFreq sampleRate : number) :
  length (highPassFilter signal cutoffFreq sampleRate) = length signal.
Proof. unfold highPassFilter. apply mapi_length. Qed.

Lemma bandPassFilter_length {M : MathImpl} (signal : list number)
    (lowFreq highFreq sampleRate : number) :
  length (bandPassFilter signal lowFreq highFreq sampleRate) = length signal.
Proof.
  unfold bandPassFilter. now rewrite lowPassFilter_length, highPassFilter_length.
Qed.

Lemma notchFilter_length {M : MathImpl} (signal : list number)
    (notchFreq sampleRate bandwidth : number) :
  length (notchFilter signal notchFreq sampleRate bandwidth) = length signal.
Proof. unfold notchFilter. apply filtfilt_length. Qed.

Lemma predictEmotion_returns {M : MathImpl} (model : option LayersModel)
    (signal : list number) (sampleRate : number) :
  exists r, predictEmotion model signal sampleRate = Some r.
Proof.
  destruct model as [predict|]; cbn [predictEmotion]; [|eauto].
  destruct (extractFeatures signal sampleRate 256 10) as [|row0 rest] eqn:E.
  - apply (f_equal (@length _)) in E. rewrite extractFeatures_length in E.
    discriminate.
  - cbn [normalizeFeatures bind]. eauto.
Qed.

(** X11. Every stage [preprocessSignal] reports has as many samples as its
    input, whatever the cut-offs, the notch frequency and the sample rate. *)
Theorem preprocessSignal_keeps_length {M : MathImpl} (signal : list number)
    (sampleRate bandpassLow bandpassHigh notchFreq : number) :
  let r := preprocessSignal signal sampleRate bandpassLow bandpassHigh notchFreq in
  original r = signal /\
  length (afterBandpass r) = length signal /\
  length (afterNotch r) = length signal /\
  final r = afterNotch r.
Proof.
  cbn zeta. unfold preprocessSignal.
  cbn [original afterBandpass afterNotch final].
  rewrite notchFilter_length, bandPassFilter_length. auto.
Qed.

(** X12. The page's processing of a loaded signal always finishes with a
    prediction, for every combination of the panel's switches; the processed
    signal has the length of the loaded one and is the loaded data itself
    when every switch is off. *)
Theorem handleApplyFilters_outcome {M : MathImpl} (model : option LayersModel)
    (currentSignal : BrainSignal) (settings : FilterSettings) :
  exists out prediction,
    handleApplyFilters model (Some currentSignal) settings = Some out /\
    emotionPrediction out = Some prediction /\
    length (processedSignal out) = length (data currentSignal) /\
    (applyBandpass settings || applyNotch settings || applyICA settings = false ->
     processedSignal out = data currentSignal).
Proof.
  unfold handleApplyFilters. cbv zeta.
  match goal with
  | |- context [predictEmotion model ?s ?r] =>
      destruct (predictEmotion_returns model s r) as [p Hp]
  end.
  eexists. exists p. split; [reflexivity|].
  cbn [emotionPrediction processedSignal]. split; [exact Hp|].
  split.
  - destruct (applyBandpass settings), (applyNotch settings), (applyICA settings);
      repeat first
        [ reflexivity
        | rewrite (proj1 (removeArtifactsSimple_lengths _ _))
        | progress unfold preprocessSignal
        | progress cbn [afterNotch afterBandpass]
        | rewrite notchFilter_length
        | rewrite bandPassFilter_length ].
  - destruct (applyBandpass settings), (applyNotch settings), (applyICA settings);
      cbn [orb]; intros H; try discriminate. reflexivity.
Qed.

(** ** Sums of signals *)

Lemma add_into_get (result signal : list number) (i : nat) :
  (length signal <= length result)%nat ->
  get (add_into result signal) i
  = if (i <? length signal)%nat then get result i + get signal i else get result i.
Proof.
  unfold get. revert signal i.
  induction result as [|r rs IH]; intros [|s ss] i H; cbn [length] in *; try lia.
  - reflexivity.
  - reflexivity.
  - destruct i as [|i]; [reflexivity|].
    cbn [add_into nth]. rewrite IH by lia. reflexivity.
Qed.

Lemma fold_add_into_get (signals : list (list number)) (acc : list number) (i : nat) :
  (forall s, In s signals -> (length s <= length acc)%nat) ->
  length (fold_left add_into signals acc) = length acc /\
  get (fold_left add_into signals acc) i
  = fold_left (fun a s => if (i <? length s)%nat then a + get s i else a)
              signals (get acc i).
Proof.
  revert acc. induction signals as [|s ss IH]; intros acc H; cbn [fold_left].
  - auto.
  - assert (Hs : (length s <= length acc)%nat) by (apply H; now left).
    destruct (IH (add_into acc s)) as [Hl Hg].
    { intros t Ht. rewrite add_into_length by exact Hs. apply H. now right. }
    rewrite Hl, Hg, add_into_length, add_into_get by exact Hs. auto.
Qed.

Lemma fold_max_bounds (ls : list nat) (m : nat) :
  (m <= fold_left Nat.max ls m)%nat /\
  (forall k, In k ls -> (k <= fold_left Nat.max ls m)%nat) /\
  (fold_left Nat.max ls m = m \/ In (fold_left Nat.max ls m) ls).
Proof.
  revert m. induction ls as [|k ls IH]; intros m; cbn [fold_left].
  - split; [lia|]. split; [intros k []|now left].
  - destruct (IH (Nat.max m k)) as (H1 & H2 & H3).
    split; [lia|]. split.
    + intros j [<-|Hj]; [lia|auto].
    + destruct H3 as [H3|H3]; [|right; now right].
      rewrite H3. destruct (Nat.max_spec m k) as [[_ ->]|[_ ->]]; [right|left]; auto.
      now left.
Qed.

(** X13. [addSignals] pads to the longest signal: the sum is as long as the
    longest argument and its sample [i] adds, from 0 and in argument order,
    the samples of the arguments that reach index [i]. *)
Theorem addSignals_sums_pointwise (signals : list (list number)) :
  signals <> [] ->
  let r := addSignals signals in
  (forall s, In s signals -> (length s <= length r)%nat) /\
  (exists s, In s signals /\ length s = length r) /\
  (forall i, (i < length r)%nat ->
     get r i = fold_left (fun a s => if (i <? length s)%nat then a + get s i else a)
                         signals 0).
Proof.
  intros Hne. cbn zeta. unfold addSignals.
  set (maxLength := fold_left Nat.max (map (@length number) signals) O).
  destruct (fold_max_bounds (map (@length number) signals) O) as (_ & Hle & Hin).
  fold maxLength in Hle, Hin.
  assert (Hall : forall s, In s signals -> (length s <= length (repeat 0%float maxLength))%nat).
  { intros s Hs. rewrite repeat_length. apply Hle. now apply in_map. }
  assert (Hlen : length (fold_left add_into signals (repeat 0 maxLength)) = maxLength).
  { destruct (fold_add_into_get signals (repeat 0 maxLength) O Hall) as [-> _].
    apply repeat_length. }
  rewrite Hlen. split; [|split].
  - intros s Hs. apply Hle. now apply in_map.
  - destruct Hin as [H0|Hin].
    + destruct signals as [|s ss]; [contradiction|]. exists s. split; [now left|].
      specialize (Hle (length s) (or_introl eq_refl)). lia.
    + apply in_map_iff in Hin. destruct Hin as (s & Hs & Hin). eauto.
  - intros i Hi.
    destruct (fold_add_into_get signals (repeat 0 maxLength) i Hall) as [_ ->].
    now rewrite get_repeat.
Qed.

Lemma addSignals_sums_pointwise_witness :
  let signals := [[1; 2; 3]; [10; 20]] in
  let r := addSignals signals in
  (forall s, In s signals -> (length s <= length r)%nat) /\
  (exists s, In s signals /\ length s = length r) /\
  (forall i, (i < length r)%nat ->
     get r i = fold_left (fun a s => if (i <? length s)%nat then a + get s i else a)
                         signals 0).
Proof.
  apply (addSignals_sums_pointwise [[1; 2; 3]; [10; 20]]). discriminate.
Defined.

(** ** The pseudo-channels of the ICA strategy *)

Lemma rotation_get (signal : list number) (d i : nat) :
  (d <= length signal)%nat -> (i < length signal)%nat ->
  get (skipn d signal ++ firstn d signal) i
  = get signal ((i + d) mod length signal).
Proof.
  intros Hd Hi. unfold get.
  destruct (Nat.lt_ge_cases i (length signal - d)) as [Hlt|Hge].
  - rewrite app_nth1 by (rewrite length_skipn; lia).
    rewrite nth_skipn. rewrite Nat.mod_small by lia. f_equal. lia.
  - rewrite app_nth2 by (rewrite length_skipn; lia).
    rewrite length_skipn. rewrite nth_firstn.
    replace (i - (length signal - d) <? d)%nat with true
      by (symmetry; apply Nat.ltb_lt; lia).
    f_equal.
    replace (i + d)%nat with ((i - (length signal - d)) + 1 * length signal)%nat by lia.
    rewrite Nat.Div0.mod_add. rewrite Nat.mod_small by lia. reflexivity.
Qed.

(** X14. Each pseudo-channel is the signal rotated left by its delay (0, 5,
    10, 15), and the signal itself when it is shorter than the delay. *)
Theorem delayed_signals_are_rotations (signal : list number)
    (numComponents k : nat) :
  (k < Nat.min numComponents 4)%nat ->
  let channel := nth k (delayed_signals signal numComponents) [] in
  let delay := nth k delays O in
  length channel = length signal /\
  ((delay <= length signal)%nat ->
   forall i, (i < length signal)%nat ->
     get channel i = get signal ((i + delay) mod length signal)) /\
  ((length signal < delay)%nat -> channel = signal).
Proof.
  intros Hk. cbn zeta. unfold delayed_signals.
  set (f := fun delay => skipn delay signal ++ firstn delay signal).
  assert (Hnth : nth k (map f (firstn numComponents delays)) [] = f (nth k delays O)).
  { rewrite (nth_indep _ [] (f O)) by (rewrite length_map, length_firstn; exact Hk).
    rewrite map_nth. f_equal. rewrite nth_firstn.
    replace (k <? numComponents)%nat with true by (symmetry; apply Nat.ltb_lt; lia).
    reflexivity. }
  rewrite Hnth. unfold f. split; [|split].
  - rewrite length_app, length_skipn, length_firstn. lia.
  - intros Hd i Hi. now apply rotation_get.
  - intros Hd. rewrite skipn_all2 by lia. rewrite firstn_all2 by lia. reflexivity.
Qed.

Lemma delayed_signals_are_rotations_witness :
  let signal := [1; 2; 3; 4; 5; 6; 7] in
  let channel := nth 1 (delayed_signals signal 4) [] in
  let delay := nth 1 delays O in
  length channel = length signal /\
  ((delay <= length signal)%nat ->
   forall i, (i < length signal)%nat ->
     get channel i = get signal ((i + delay) mod length signal)) /\
  ((length signal < delay)%nat -> channel = signal).
Proof.
  apply (delayed_signals_are_rotations [1; 2; 3; 4; 5; 6; 7] 4 1). cbn. lia.
Defined.

(** ** Shapes in the ICA strategy *)

(** A loop that pushes the indices passing a test collects them in order. *)
Lemma collect_loop (test : nat -> bool) (n : nat) :
  for_loop n (fun acc i => if test i then acc ++ [i] else acc) []
  = filter test (seq 0 n).
Proof.
  induction n as [|n IH]; [reflexivity|].
  rewrite for_loop_S, seq_S, filter_app, IH. cbn [Nat.add filter].
  destruct (test n); [reflexivity | now rewrite app_nil_r].
Qed.

Lemma detectArtifacts_sorted {M : MathImpl} (components : matrix) :
  StronglySorted lt (detectArtifacts components) /\
  Forall (fun i => (i < length components)%nat) (detectArtifacts components).
Proof.
  unfold detectArtifacts.
  match goal with
  | |- context [for_loop _ ?body []] =>
      match body with
      | (fun acc i => if @?c i then _ else _) =>
          change body with (fun acc i => if c i then acc ++ [i] else acc)
      end
  end.
  rewrite collect_loop. split; [apply filter_seq_sorted|].
  apply Forall_forall. intros i Hi. apply filter_In in Hi.
  destruct Hi as [Hi _]. apply in_seq in Hi. lia.
Qed.

Lemma mmul_rows (a b : matrix) :
  Forall (fun row => length row = columns b) (mmul a b).
Proof.
  unfold mmul. apply Forall_forall. intros row Hrow.
  apply in_map_iff in Hrow. destruct Hrow as (r & <- & _).
  now rewrite length_map, length_seq.
Qed.

Lemma array_set_loop_length (f : list number -> nat -> number) (n : nat)
    (w : list number) :
  (n <= length w)%nat ->
  length (for_loop n (fun w i => array_set w i (f w i)) w) = length w.
Proof.
  intros Hn. induction n as [|n IH]; [reflexivity|].
  rewrite for_loop_S, array_set_length; rewrite IH; lia.
Qed.

Lemma decorrelate_length (W : matrix) (c numChannels : nat) (wNew : list number) :
  length wNew = numChannels ->
  length (decorrelate W c numChannels wNew) = numChannels.
Proof.
  intros Hw. unfold decorrelate. induction c as [|c IH]; [exact Hw|].
  rewrite for_loop_S.
  rewrite (array_set_loop_length
             (fun wNew i => get wNew i - dot_indexed _ (nth c W []) * entry W c i));
    [exact IH | lia].
Qed.

Lemma fastICAIteration_length {M : MathImpl} (w : list number) (X : matrix) :
  length (fastICAIteration w X) = length X.
Proof.
  unfold fastICAIteration. cbv zeta. now rewrite !length_map, length_seq.
Qed.

Lemma iterate_component_length {M : MathImpl} (remaining : nat) (W whitened : matrix)
    (c numChannels : nat) (w : list number) :
  length whitened = numChannels -> length w = numChannels ->
  length (iterate_component remaining W whitened c numChannels w) = numChannels.
Proof.
  intros HX. revert w. induction remaining as [|remaining IH]; intros w Hw.
  - exact Hw.
  - cbn [iterate_component]. cbv zeta.
    set (wDec := decorrelate W c numChannels (fastICAIteration w whitened)).
    assert (Hdec : length wDec = numChannels).
    { apply decorrelate_length. now rewrite fastICAIteration_length. }
    set (wNorm := for_loop numChannels
                    (fun wNew i => array_set wNew i (get wNew i / or_one (norm2 wDec)))
                    wDec).
    assert (Hnorm : length wNorm = numChannels).
    { unfold wNorm.
      rewrite (array_set_loop_length (fun wNew i => get wNew i / or_one (norm2 wDec)));
        [exact Hdec | lia]. }
    destruct (_ <? tolerance); [exact Hnorm | now apply IH].
Qed.

Lemma set_row_rows (W : matrix) (c k : nat) (w : list number) :
  Forall (fun row => length row = k) W -> length w = k ->
  Forall (fun row => length row = k) (set_row W c w).
Proof.
  intros HW Hw. revert c. induction HW as [|row W Hrow HW IH]; intros [|c]; cbn;
    constructor; auto.
Qed.

Lemma row_updates_keep_rows (f : matrix -> nat -> list number) (W0 : matrix)
    (n k : nat) :
  (forall W c, Forall (fun row => length row = k) W -> length (f W c) = k) ->
  Forall (fun row => length row = k) W0 ->
  Forall (fun row => length row = k)
         (for_loop n (fun W c => set_row W c (f W c)) W0).
Proof.
  intros Hf H0. induction n as [|c IH]; [exact H0|].
  rewrite for_loop_S. apply set_row_rows; auto.
Qed.

Lemma nth_row_length (W : matrix) (c k : nat) :
  Forall (fun row => length row = k) W -> (c < length W)%nat ->
  length (nth c W []) = k.
Proof.
  intros HW Hc. rewrite Forall_forall in HW. apply HW. now apply nth_In.
Qed.

Lemma row_updates_rows (f : matrix -> nat -> list number) (W0 : matrix)
    (n k : nat) :
  (forall W c, (c < n)%nat -> length W = length W0 ->
               Forall (fun row => length row = k) W -> length (f W c) = k) ->
  Forall (fun row => length row = k) W0 ->
  Forall (fun row => length row = k)
         (for_loop n (fun W c => set_row W c (f W c)) W0).
Proof.
  intros Hf H0. induction n as [|c IH]; [exact H0|].
  rewrite for_loop_S. apply set_row_rows.
  - apply IH. intros W c' Hc'. apply Hf. lia.
  - apply Hf; [lia | apply row_updates_keep_length |].
    apply IH. intros W c' Hc'. apply Hf. lia.
Qed.

Lemma fastICA_rows {M : MathImpl} (W0 whitened : matrix) (numChannels : nat) :
  length whitened = numChannels -> length W0 = numChannels ->
  Forall (fun row => length row = numChannels) W0 ->
  Forall (fun row => length row = numChannels) (fastICA W0 whitened numChannels).
Proof.
  intros HX HW0 Hrows. unfold fastICA.
  apply (row_updates_rows
           (fun W c => iterate_component maxIter W whitened c numChannels (nth c W []))).
  - intros W c Hc HW HWrows. apply iterate_component_length; [exact HX|].
    apply nth_row_length; [exact HWrows | lia].
  - exact Hrows.
Qed.

Lemma initial_unmixing_rows (rnd : random_source) (numChannels : nat) :
  Forall (fun row => length row = numChannels) (initial_unmixing rnd numChannels).
Proof.
  unfold initial_unmixing. apply Forall_forall. intros row Hrow.
  apply in_map_iff in Hrow. destruct Hrow as (i & <- & _).
  cbv zeta. now rewrite !length_map, length_seq.
Qed.

Lemma columns_of_rows (W : matrix) (k : nat) :
  W <> [] -> Forall (fun row => length row = k) W -> columns W = k.
Proof.
  intros Hne HW. destruct W as [|row W]; [contradiction|].
  inversion HW; subst. reflexivity.
Qed.

Lemma nonempty_by_length {A : Type} (l : list A) :
  (1 <= length l)%nat -> l <> [].
Proof. destruct l; cbn; [lia | discriminate]. Qed.

Lemma whitenData_whitened_columns {L : MatrixLib}
    (data whitened whiteningMatrix : matrix) :
  data <> [] -> whitenData data = Some (whitened, whiteningMatrix) ->
  columns whitened = columns data.
Proof.
  intros Hne Hw. pose proof (whitenData_length _ _ _ Hw) as (_ & Hlen).
  revert Hw. unfold whitenData.
  destruct (row0_length data); cbn [bind]; [|discriminate].
  destruct (EVD _) as [eigenvalues eigenvectors].
  intros H. inversion H. subst. apply mmul_columns.
  apply nonempty_by_length. rewrite Hlen. destruct data; [contradiction | cbn; lia].
Qed.

Lemma centerData_columns (data centered : matrix) (means : list number) :
  centerData data = Some (centered, means) -> columns centered = columns data.
Proof.
  unfold centerData. destruct data as [|row data]; cbn [row0_length bind];
    [discriminate|].
  intros H. inversion H. unfold columns. cbn [map nth]. apply length_map.
Qed.

Lemma delayed_signals_columns (signal : list number) (numComponents : nat) :
  (1 <= numComponents)%nat ->
  columns (delayed_signals signal numComponents) = length signal.
Proof.
  intros Hn. destruct numComponents as [|n]; [lia|].
  unfold columns, delayed_signals, delays. cbn [firstn map nth skipn].
  now rewrite app_nil_r.
Qed.

(** X15. With at least one component asked for and matrices of the shapes
    ml-matrix returns, the ICA strategy always returns; the clean signal,
    the removed part and every component have the length of the signal,
    there is one component per pseudo-channel, and the reported artifact
    indices are component indices in increasing order. *)
Theorem ica_result_shape {M : MathImpl} {L : MatrixLib}
    (rnd : random_source) (signal : list number) (numComponents : nat) :
  (1 <= numComponents)%nat ->
  well_shaped L ->
  exists r,
    removeArtifactsICA rnd signal numComponents = Some r /\
    length (cleanSignal r) = length signal /\
    length (removedArtifacts r) = length signal /\
    length (components r) = Nat.min numComponents 4 /\
    Forall (fun comp => length comp = length signal) (components r) /\
    StronglySorted lt (artifactIndices r) /\
    Forall (fun i => (i < length (components r))%nat) (artifactIndices r).
Proof.
  intros Hn Hshape. unfold removeArtifactsICA.
  assert (Hd : delayed_signals signal numComponents <> []).
  { apply nonempty_by_length. rewrite delayed_signals_length. lia. }
  destruct (centerData_returns _ Hd) as (centered & means & Ec).
  rewrite Ec. cbn [bind].
  pose proof (centerData_length _ _ _ Ec) as Hclen.
  rewrite delayed_signals_length in Hclen.
  assert (Hc : centered <> []) by (apply nonempty_by_length; lia).
  destruct (whitenData_returns _ Hc) as (whitened & whiteningMatrix & Ew).
  rewrite Ew. cbn [bind].
  pose proof (whitenData_length _ _ _ Ew) as (Hwlen & Hwmlen).
  pose proof (whitenData_columns _ _ _ Hshape Hc Ew) as Hwmcols.
  pose proof (whitenData_whitened_columns _ _ _ Hc Ew) as Hwcols.
  rewrite (centerData_columns _ _ _ Ec), delayed_signals_columns in Hwcols
    by exact Hn.
  destruct Hshape as (Hpinv & _).
  set (numChannels := length whitened) in *.
  assert (Hnc : (1 <= numChannels)%nat) by lia.
  set (W := fastICA (initial_unmixing rnd numChannels) whitened numChannels).
  assert (HWlen : length W = numChannels).
  { unfold W. now rewrite fastICA_length, initial_unmixing_length. }
  assert (HWrows : Forall (fun row => length row = numChannels) W).
  { apply fastICA_rows;
      auto using initial_unmixing_length, initial_unmixing_rows. }
  assert (HWne : W <> []) by (apply nonempty_by_length; lia).
  set (comps := mmul W whitened).
  assert (Hcomps : Forall (fun comp => length comp = length signal) comps).
  { rewrite <- Hwcols. apply mmul_rows. }
  assert (Hcompslen : length comps = numChannels).
  { unfold comps. now rewrite mmul_length. }
  set (arts := detectArtifacts comps).
  set (cleanComponents :=
         mapi (fun comp i => if existsb (Nat.eqb i) arts
                             then repeat 0 (length comp) else comp) comps).
  assert (Hclean : columns cleanComponents = length signal).
  { unfold columns, cleanComponents.
    rewrite (mapi_nth _ comps O [] []) by lia.
    assert (H0 : length (nth 0 comps []) = length signal).
    { apply nth_row_length; [exact Hcomps | lia]. }
    destruct (existsb _ arts); [now rewrite repeat_length | exact H0]. }
  set (cleanWhitened := mmul (pseudoInverse W) cleanComponents).
  assert (Hcw : columns cleanWhitened = length signal).
  { unfold cleanWhitened. rewrite mmul_columns; [exact Hclean|].
    apply nonempty_by_length. rewrite Hpinv.
    rewrite (columns_of_rows W numChannels HWne HWrows). exact Hnc. }
  pose proof (mmul_rows (pseudoInverse whiteningMatrix) cleanWhitened) as Hrec.
  pose proof (mmul_length (pseudoInverse whiteningMatrix) cleanWhitened) as Hreclen.
  rewrite Hpinv, Hwmcols in Hreclen.
  destruct (mmul (pseudoInverse whiteningMatrix) cleanWhitened) as [|row0 rest];
    [cbn in Hreclen; lia|].
  cbn [nth_error bind]. eexists. split; [reflexivity|].
  cbn [cleanSignal removedArtifacts components artifactIndices].
  inversion Hrec; subst.
  rewrite length_map, mapi_length, Hcompslen.
  destruct (detectArtifacts_sorted comps) as (Hsorted & Hbound).
  rewrite Hcompslen in Hbound.
  repeat split; auto; try lia.
  exact (eq_trans H1 Hcw).
Qed.

Lemma ica_result_shape_witness :
  exists r,
    @removeArtifactsICA Series.math demo_matrix_lib demo_random [1; 2; 4; 8; 16; 32] 2
      = Some r /\
    length (cleanSignal r) = length [1; 2; 4; 8; 16; 32] /\
    length (removedArtifacts r) = length [1; 2; 4; 8; 16; 32] /\
    length (components r) = Nat.min 2 4 /\
    Forall (fun comp => length comp = length [1; 2; 4; 8; 16; 32]) (components r) /\
    StronglySorted lt (artifactIndices r) /\
    Forall (fun i => Nat.lt i (length (components r))) (artifactIndices r).
Proof.
  apply (@ica_result_shape Series.math demo_matrix_lib demo_random
           [1; 2; 4; 8; 16; 32] 2).
  - lia.
  - exact demo_matrix_lib_well_shaped.
Defined.

(** ** Silence through the filter chain *)

Lemma finite_coeffs_spec (c : Coeffs) :
  finite_coeffs c = true ->
  Forall (fun x => finite_number x = true) (coeff_b c) /\
  Forall (fun x => finite_number x = true) (coeff_a c).
Proof.
  unfold finite_coeffs. rewrite andb_true_iff, !forallb_forall, !Forall_forall.
  auto.
Qed.

Lemma mapi_of_zeros (f : number -> nat -> number) (n : nat) :
  (forall i, (i < n)%nat -> f 0 i = 0) -> mapi f (repeat 0 n) = repeat 0 n.
Proof.
  intros Hf. apply list_eq_by_get.
  - now rewrite mapi_length.
  - intros i Hi. rewrite mapi_length, repeat_length in Hi.
    rewrite (get_mapi _ _ 0) by (now rewrite repeat_length).
    rewrite nth_repeat, get_repeat by exact Hi. now apply Hf.
Qed.

(** X16. When the Butterworth and notch coefficients come out finite, a
    silent signal stays silent through the low-pass, the high-pass, the
    band-pass, the notch and every stage of [preprocessSignal]. *)
Theorem silence_stays_silent {M : MathImpl} (n : nat)
    (sampleRate bandpassLow bandpassHigh notchFreq : number) :
  finite_coeffs (butterworthCoeffs bandpassLow sampleRate 2) = true ->
  finite_coeffs (butterworthCoeffs bandpassHigh sampleRate 2) = true ->
  finite_coeffs (notchCoeffs notchFreq sampleRate 2) = true ->
  let silence := repeat 0 n in
  lowPassFilter silence bandpassLow sampleRate = silence /\
  highPassFilter silence bandpassLow sampleRate = silence /\
  bandPassFilter silence bandpassLow bandpassHigh sampleRate = silence /\
  notchFilter silence notchFreq sampleRate 2 = silence /\
  preprocessSignal silence sampleRate bandpassLow bandpassHigh notchFreq
  = mkPreprocessingResult silence silence silence silence.
Proof.
  intros Hlow Hhigh Hnotch. cbn zeta.
  apply finite_coeffs_spec in Hlow, Hhigh, Hnotch.
  destruct Hlow as [Hlb Hla], Hhigh as [Hhb Hha], Hnotch as [Hnb Hna].
  assert (Hlp : lowPassFilter (repeat 0 n) bandpassLow sampleRate = repeat 0 n).
  { unfold lowPassFilter. cbv zeta. now apply filters_of_zeros. }
  assert (Hhp : highPassFilter (repeat 0 n) bandpassLow sampleRate = repeat 0 n).
  { unfold highPassFilter. cbv zeta. rewrite Hlp. apply mapi_of_zeros.
    intros i Hi. now rewrite get_repeat. }
  assert (Hbp : bandPassFilter (repeat 0 n) bandpassLow bandpassHigh sampleRate
                = repeat 0 n).
  { unfold bandPassFilter. cbv zeta. rewrite Hhp.
    unfold lowPassFilter. cbv zeta. now apply filters_of_zeros. }
  assert (Hn : notchFilter (repeat 0 n) notchFreq sampleRate 2 = repeat 0 n).
  { unfold notchFilter. cbv zeta. now apply filters_of_zeros. }
  repeat split; auto.
  unfold preprocessSignal. cbv zeta. now rewrite Hbp, Hn.
Qed.

Lemma silence_stays_silent_witness :
  let silence := repeat 0 8 in
  @lowPassFilter Series.math silence 1 256 = silence /\
  @highPassFilter Series.math silence 1 256 = silence /\
  @bandPassFilter Series.math silence 1 45 256 = silence /\
  @notchFilter Series.math silence 50 256 2 = silence /\
  @preprocessSignal Series.math silence 256 1 45 50
  = mkPreprocessingResult silence silence silence silence.
Proof.
  apply (@silence_stays_silent Series.math 8 256 1 45 50); vm_compute; reflexivity.
Defined.

(** ** The garden's counters *)

Ltac each_value k :=
  first [ exfalso; lia
        | destruct k as [|k];
          [vm_compute; repeat split; reflexivity | each_value k] ].

Lemma js_slice_last_length {A : Type} (a : list A) (k : Z) :
  (0 < k)%Z ->
  (length (js_slice a (- k) (Z.of_nat (length a))) <= Z.to_nat k)%nat.
Proof.
  intros Hk. unfold js_slice. cbv zeta. rewrite length_firstn.
  destruct (Z.ltb_spec (- k) 0); destruct (Z.ltb_spec (Z.of_nat (length a)) 0);
    lia.
Qed.

Lemma health_moves (k : nat) :
  (k <= 100)%nat ->
  Math_min 100 (of_nat k + 5) = of_nat (Nat.min 100 (k + 5)) /\
  Math_min 100 (of_nat k + 1) = of_nat (Nat.min 100 (k + 1)) /\
  Math_max 0 (of_nat k - 8) = of_nat (k - 8).
Proof. intros Hk. each_value k. Qed.

Lemma flowers_moves (k : nat) :
  (k <= 8)%nat ->
  Math_min 8 (of_nat k + 1) = of_nat (Nat.min 8 (k + 1)) /\
  Math_min 8 (of_nat k + 0) = of_nat k /\
  Math_max 0 (of_nat k - 1) = of_nat (k - 1) /\
  Math_max 0 (of_nat k - 0) = of_nat k.
Proof. intros Hk. each_value k. Qed.

Lemma birds_moves (k : nat) :
  (k <= 3)%nat ->
  Math_min 3 (of_nat k + 1) = of_nat (Nat.min 3 (k + 1)) /\
  Math_min 3 (of_nat k + 0) = of_nat k /\
  Math_max 0 (of_nat k - 1) = of_nat (k - 1).
Proof. intros Hk. each_value k. Qed.

Lemma small_counter_moves (k : nat) :
  (k <= 5)%nat ->
  Math_min 5 (of_nat k + 1) = of_nat (Nat.min 5 (k + 1)) /\
  Math_min 5 (of_nat k + 0) = of_nat k /\
  Math_max 0 (of_nat k - 1) = of_nat (k - 1).
Proof. intros Hk. each_value k. Qed.

Lemma initialGameState_in_bounds : garden_in_bounds initialGameState.
Proof.
  unfold garden_in_bounds, whole_upto. cbn.
  repeat split; try (exists 50%nat; split; [lia | reflexivity]);
    try (exists 0%nat; split; [lia | reflexivity]); lia.
Qed.

Lemma updateGameState_in_bounds (prediction : EmotionPrediction) (r1 r2 : number)
    (prev : GameState) :
  garden_in_bounds prev -> garden_in_bounds (updateGameState prediction r1 r2 prev).
Proof.
  intros ((kh & Hkh & Hh) & (kf & Hkf & Hf) & (kb & Hkb & Hb)
          & (kw & Hkw & Hw) & (kg & Hkg & Hg) & Hhist).
  pose proof (health_moves kh Hkh) as (Hh5 & Hh1 & Hh8).
  pose proof (flowers_moves kf Hkf) as (Hf1 & Hf0 & Hf1' & Hf0').
  pose proof (birds_moves kb Hkb) as (Hb1 & Hb0 & Hb1').
  pose proof (small_counter_moves kw Hkw) as (Hw1 & Hw0 & Hw1').
  pose proof (small_counter_moves kg Hkg) as (Hg1 & _ & Hg1').
  assert (Hslice : (length (js_slice (emotionHistory prev) (-9)
                               (Z.of_nat (length (emotionHistory prev)))
                            ++ [prediction]) <= 10)%nat).
  { rewrite length_app. cbn [length].
    pose proof (js_slice_last_length (emotionHistory prev) 9 eq_refl) as Hs.
    cbn [Z.opp Z.to_nat Pos.to_nat Pos.iter_op Nat.add] in Hs. lia. }
  unfold updateGameState. cbv zeta.
  destruct (pred_emotion prediction); unfold garden_in_bounds, whole_upto;
    cbn [health flowers birds weeds growthStage emotionHistory];
    rewrite ?Hh, ?Hf, ?Hb, ?Hw, ?Hg.
  - destruct (gt r1 0.7), (gt r2 0.8), (gt (of_nat kh) 70 && (of_nat kg <? 5));
      rewrite ?Hh5, ?Hf1, ?Hf0, ?Hb1, ?Hb0, ?Hw1', ?Hg1;
      repeat split; eauto; eexists; (split; [|reflexivity]); lia.
  - repeat split; eauto. rewrite Hh1. eexists; (split; [|reflexivity]); lia.
  - destruct (gt r1 0.5), (gt r2 0.5), ((of_nat kh <? 30) && gt (of_nat kg) 0);
      rewrite ?Hh8, ?Hf1', ?Hf0', ?Hb1', ?Hw1, ?Hw0, ?Hg1';
      repeat split; eauto; eexists; (split; [|reflexivity]); lia.
Qed.

(** X17. Whatever predictions arrive and whichever buttons are pressed, the
    garden's counters stay whole numbers in the ranges the page draws:
    health 0 to 100, flowers 0 to 8, birds 0 to 3, weeds and growth stage 0
    to 5, and at most ten predictions are remembered. *)
Theorem garden_stays_in_bounds (events : list GameEvent) :
  garden_in_bounds (fold_left handleGameEvent events initialGameState).
Proof.
  assert (H : forall s, garden_in_bounds s ->
                        garden_in_bounds (fold_left handleGameEvent events s)).
  { induction events as [|e events IH]; intros s Hs; [exact Hs|].
    cbn [fold_left]. apply IH. destruct e as [p r1 r2| | |]; cbn [handleGameEvent].
    - now apply updateGameState_in_bounds.
    - exact Hs.
    - exact Hs.
    - exact initialGameState_in_bounds. }
  apply H, initialGameState_in_bounds.
Qed.

(** ** Degenerate sample counts in the generators *)

Lemma Math_floor_nan (x : number) : is_nan x = true -> Math_floor x = FlNaN.
Proof. intros H. apply is_nan_true_eq in H. subst x. reflexivity. Qed.

Lemma length_zero_nil {A : Type} (l : list A) : length l = O -> l = [].
Proof. destruct l; [reflexivity | discriminate]. Qed.

(** X18. When [duration * sampleRate] is NaN the generators do not fail:
    the custom generator and the three presets return a signal without
    samples. *)
Theorem nan_sample_count_gives_empty_signal {M : MathImpl} (rnd : random_source)
    (params : CustomSignalParams) (duration sampleRate : number) :
  is_nan (duration * sampleRate) = true ->
  (exists s, generateCustomSignal rnd params duration sampleRate = Some s /\
             data s = []) /\
  (exists s, generateHappySignal rnd duration sampleRate = Some s /\ data s = []) /\
  (exists s, generateNeutralSignal rnd duration sampleRate = Some s /\ data s = []) /\
  (exists s, generateSadSignal rnd duration sampleRate = Some s /\ data s = []).
Proof.
  intros Hnan.
  assert (Hcount : for_count (Math_floor (duration * sampleRate)) = Some O).
  { now rewrite Math_floor_nan. }
  repeat split.
  - destruct (generateCustomSignal_returns _ _ _ Hcount rnd params) as (s & Hs & Hl & _).
    exists s. auto using length_zero_nil.
  - destruct (generateHappySignal_returns _ _ _ Hcount rnd) as (s & Hs & Hl).
    exists s. auto using length_zero_nil.
  - destruct (generateNeutralSignal_returns _ _ _ Hcount rnd) as (s & Hs & Hl).
    exists s. auto using length_zero_nil.
  - destruct (generateSadSignal_returns _ _ _ Hcount rnd) as (s & Hs & Hl).
    exists s. auto using length_zero_nil.
Qed.

Lemma nan_sample_count_gives_empty_signal_witness :
  (exists s, @generateCustomSignal Series.math demo_random demo_params 10 nan = Some s /\
             data s = []) /\
  (exists s, @generateHappySignal Series.math demo_random 10 nan = Some s /\ data s = []) /\
  (exists s, @generateNeutralSignal Series.math demo_random 10 nan = Some s /\ data s = []) /\
  (exists s, @generateSadSignal Series.math demo_random 10 nan = Some s /\ data s = []).
Proof.
  apply (@nan_sample_count_gives_empty_signal Series.math demo_random demo_params 10 nan).
  reflexivity.
Defined.

(** X19. When the sample count cannot be reached (an infinite
    [duration * sampleRate], or a floor above 2^32 - 1, the longest array)
    the sample loop does not finish, and neither the custom generator nor a
    preset returns. *)
Theorem endless_sample_count_never_returns {M : MathImpl} (rnd : random_source)
    (params : CustomSignalParams) (duration sampleRate : number) :
  for_count (Math_floor (duration * sampleRate)) = None ->
  generateCustomSignal rnd params duration sampleRate = None /\
  generateHappySignal rnd duration sampleRate = None /\
  generateNeutralSignal rnd duration sampleRate = None /\
  generateSadSignal rnd duration sampleRate = None.
Proof.
  intros Hcount.
  assert (Halpha : generateAlphaWaves duration sampleRate = None).
  { unfold generateAlphaWaves, generateSineWave. now rewrite Hcount. }
  unfold generateCustomSignal, generateHappySignal, generateNeutralSignal,
    generateSadSignal.
  rewrite Halpha. auto.
Qed.

Lemma endless_sample_count_never_returns_witness :
  @generateCustomSignal Series.math demo_random demo_params 1e308 256 = None /\
  @generateHappySignal Series.math demo_random 1e308 256 = None /\
  @generateNeutralSignal Series.math demo_random 1e308 256 = None /\
  @generateSadSignal Series.math demo_random 1e308 256 = None.
Proof.
  apply (@endless_sample_count_never_returns Series.math demo_random demo_params
           1e308 256).
  reflexivity.
Defined.

(** ** Signals too short for a spectrum *)

(** X20. A signal of fewer than two samples has no frequency bin: its five
    band powers are 0, and without a fitted model [predictEmotion] answers
    neutral with NaN for the confidence and the three probabilities. *)
Theorem short_signal_has_no_band_power {M : MathImpl} (signal : list number)
    (sampleRate : number) :
  (length signal < 2)%nat ->
  computeFFT signal sampleRate = ([], []) /\
  calculateBandPowers signal sampleRate = mkBandPowers 0 0 0 0 0 /\
  predictEmotion None signal sampleRate
  = Some (mkEmotionPrediction neutral nan (mkProbabilities nan nan nan)).
Proof.
  intros Hlen.
  assert (Hfft : computeFFT signal sampleRate = ([], [])).
  { unfold computeFFT. cbv zeta.
    replace (length signal / 2)%nat with O; [reflexivity|].
    symmetry. apply Nat.div_small. exact Hlen. }
  assert (Hbands : calculateBandPowers signal sampleRate = mkBandPowers 0 0 0 0 0).
  { unfold calculateBandPowers. rewrite Hfft. reflexivity. }
  split; [exact Hfft|]. split; [exact Hbands|].
  cbn [predictEmotion]. unfold ruleBasedClassification. rewrite Hbands.
  vm_compute. reflexivity.
Qed.

Lemma short_signal_has_no_band_power_witness :
  @computeFFT Series.math [0.75] 256 = ([], []) /\
  @calculateBandPowers Series.math [0.75] 256 = mkBandPowers 0 0 0 0 0 /\
  @predictEmotion Series.math None [0.75] 256
  = Some (mkEmotionPrediction neutral nan (mkProbabilities nan nan nan)).
Proof.
  apply (@short_signal_has_no_band_power Series.math [0.75] 256). cbn. lia.
Defined.
